(** * UA_MFA_bypass.py: the token-request script and its JSON handling

    The script prompts for a username and a password, sends one ROPC token
    request with a spoofed User-Agent, and prints and saves the answer.  It
    is modelled here as a program in a small state-and-exception monad over
    a world made of standard output, the file system and the log of calls to
    [requests.post].  The two [json] entry points the script calls,
    [json.dumps]/[json.dump] (with an indent) and [json.loads] (behind
    [response.json()]), are modelled after CPython's [json.encoder],
    [json.decoder] and [json.scanner].

    The script is there twice.  [main] is the script where nothing around it
    fails: both prompts are answered, standard output takes every character,
    the file opens.  [script] is the same text on a host that may fail it:
    the end of input at a prompt, a standard output whose encoding lacks a
    character, a directory that cannot be written.  [send] is what one call
    to [requests.post] puts on the wire, with the redirects that the library
    follows.

    Conventions.
    - A Python [str] is a list of code points ([N]).
    - A Python [float] is an IEEE binary64 value ([spec_float]); the two
      decimal conversions [float(s)] and [float.__repr__] belong to the
      platform and are the methods of the class [FloatConv].
    - Interpreter resource limits (recursion depth, the digit limit of
      [int(s)]) are not modelled. *)

From Stdlib Require Import ZArith NArith Lia String Ascii.
From Stdlib Require Import DecimalN DecimalZ DecimalFacts SpecFloat.
From stdpp Require Import gmap list.

Set Warnings "-register-all".

Local Open Scope N_scope.

(** * Part I: the model *)

(** ** Python strings *)

Abbreviation pystr := (list N).

(** An ASCII literal of the source, as code points. *)
Fixpoint py (s : string) : pystr :=
  match s with
  | EmptyString => []
  | String a r => N_of_ascii a :: py r
  end.

(** [' ' * n] *)
Definition spaces (n : nat) : pystr := repeat 32 n.

(** [sep.join(parts)] *)
Fixpoint join (sep : pystr) (parts : list pystr) : pystr :=
  match parts with
  | [] => []
  | [p] => p
  | p :: ps => p ++ sep ++ join sep ps
  end.

(** ** Integers and their decimal form: [int.__repr__] and [int(s)] *)

Fixpoint uint_chars (d : Decimal.uint) : pystr :=
  match d with
  | Decimal.Nil => []
  | Decimal.D0 r => 48 :: uint_chars r
  | Decimal.D1 r => 49 :: uint_chars r
  | Decimal.D2 r => 50 :: uint_chars r
  | Decimal.D3 r => 51 :: uint_chars r
  | Decimal.D4 r => 52 :: uint_chars r
  | Decimal.D5 r => 53 :: uint_chars r
  | Decimal.D6 r => 54 :: uint_chars r
  | Decimal.D7 r => 55 :: uint_chars r
  | Decimal.D8 r => 56 :: uint_chars r
  | Decimal.D9 r => 57 :: uint_chars r
  end.

Definition is_digit (c : N) : bool := (48 <=? c) && (c <=? 57).

Definition digit_cons (c : N) (d : Decimal.uint) : Decimal.uint :=
  if c =? 48 then Decimal.D0 d else
  if c =? 49 then Decimal.D1 d else
  if c =? 50 then Decimal.D2 d else
  if c =? 51 then Decimal.D3 d else
  if c =? 52 then Decimal.D4 d else
  if c =? 53 then Decimal.D5 d else
  if c =? 54 then Decimal.D6 d else
  if c =? 55 then Decimal.D7 d else
  if c =? 56 then Decimal.D8 d else Decimal.D9 d.

Fixpoint uint_of_chars (s : pystr) : Decimal.uint :=
  match s with
  | [] => Decimal.Nil
  | c :: r => digit_cons c (uint_of_chars r)
  end.

(** [int.__repr__(z)]: an optional minus sign and the decimal digits, without
    leading zeros. *)
Definition int_repr (z : Z) : pystr :=
  match Z.to_int z with
  | Decimal.Pos d => uint_chars d
  | Decimal.Neg d => 45 :: uint_chars d
  end.

(** [int(s)] on a lexeme [-?[0-9]+]. *)
Definition int_of_str (s : pystr) : Z :=
  match s with
  | c :: r =>
      if c =? 45 then Z.of_int (Decimal.Neg (uint_of_chars r))
      else Z.of_int (Decimal.Pos (uint_of_chars s))
  | [] => Z.of_int (Decimal.Pos Decimal.Nil)
  end.

(** ** Floats: the platform's decimal conversions *)

Class FloatConv := {
  (** [float(s)] on a JSON number lexeme *)
  float_of_str : pystr -> spec_float;
  (** [float.__repr__] *)
  float_repr : spec_float -> pystr
}.

(** ** Python objects that [json.loads] builds *)

Inductive pyobj :=
| PyNone
| PyBool (b : bool)
| PyInt (z : Z)
| PyFloat (f : spec_float)
| PyStr (s : pystr)
| PyList (l : list pyobj)
| PyDict (d : list (pystr * pyobj)).

(** ** json.encoder *)

(** The four hexadecimal digits of ['{0:04x}'.format(n)], for [n < 0x10000]. *)
Definition hexdigit (n : N) : N := if n <? 10 then 48 + n else 87 + n.

Definition hex4 (n : N) : pystr :=
  [hexdigit (n / 4096 mod 16); hexdigit (n / 256 mod 16);
   hexdigit (n / 16 mod 16); hexdigit (n mod 16)].

(** ['\\u{0:04x}'.format(n)] *)
Definition u_escape (n : N) : pystr := 92 :: 117 :: hex4 n.

(** [replace(match)] of [py_encode_basestring_ascii], with [ESCAPE_DCT]:
    what one character of the string becomes. *)
Definition escape_char (c : N) : pystr :=
  if c =? 34 then [92; 34]            (* quotation mark *)
  else if c =? 92 then [92; 92]       (* backslash *)
  else if c =? 10 then [92; 110]      (* newline *)
  else if c =? 13 then [92; 114]      (* carriage return *)
  else if c =? 9 then [92; 116]       (* tab *)
  else if c =? 8 then [92; 98]        (* backspace *)
  else if c =? 12 then [92; 102]      (* form feed *)
  else if (32 <=? c) && (c <=? 126) then [c]   (* not matched by ESCAPE_ASCII *)
  else if c <? 0x10000 then u_escape c
  else
    let n := c - 0x10000 in
    let s1 := N.lor 0xd800 (N.land (N.shiftr n 10) 0x3ff) in
    let s2 := N.lor 0xdc00 (N.land n 0x3ff) in
    u_escape s1 ++ u_escape s2.

Definition encode_basestring_ascii (s : pystr) : pystr :=
  34 :: flat_map escape_char s ++ [34].

Section Encoder.
Context `{FloatConv}.

(** [floatstr] of [JSONEncoder.iterencode], with [allow_nan=True]. *)
Definition floatstr (o : spec_float) : pystr :=
  if negb (SFeqb o o) then py "NaN"
  else if SFeqb o (S754_infinity false) then py "Infinity"
  else if SFeqb o (S754_infinity true) then py "-Infinity"
  else float_repr o.

(** ['\n' + _indent * _current_indent_level], [_indent = ' ' * indent]. *)
Definition newline_indent (indent level : nat) : pystr :=
  10 :: spaces (indent * level).

(** [_iterencode], [_iterencode_list] and [_iterencode_dict] of
    [_make_iterencode] with an integer indent: the item separator is [","]
    and the key separator [": "]. The chunks are concatenated. *)
Fixpoint iterencode (indent level : nat) (o : pyobj) : pystr :=
  match o with
  | PyStr s => encode_basestring_ascii s
  | PyNone => py "null"
  | PyBool true => py "true"
  | PyBool false => py "false"
  | PyInt z => int_repr z
  | PyFloat f => floatstr f
  | PyList [] => py "[]"
  | PyList l =>
      let nl := newline_indent indent (S level) in
      py "[" ++ nl
      ++ join (py "," ++ nl) (map (iterencode indent (S level)) l)
      ++ newline_indent indent level ++ py "]"
  | PyDict [] => py "{}"
  | PyDict d =>
      let nl := newline_indent indent (S level) in
      py "{" ++ nl
      ++ join (py "," ++ nl)
           (map (fun kv => encode_basestring_ascii (fst kv) ++ py ": "
                           ++ iterencode indent (S level) (snd kv)) d)
      ++ newline_indent indent level ++ py "}"
  end.

(** [json.dumps(obj, indent=indent)]; [json.dump(obj, fp, indent=indent)]
    writes the same text to [fp]. *)
Definition json_dumps (indent : nat) (obj : pyobj) : pystr :=
  iterencode indent 0 obj.
End Encoder.

(** ** json.decoder and json.scanner *)

(** [WHITESPACE = re.compile(r'[ \t\n\r]*')]: what follows the match. *)
Definition is_ws (c : N) : bool :=
  (c =? 32) || (c =? 9) || (c =? 10) || (c =? 13).

Fixpoint skip_ws (s : pystr) : pystr :=
  match s with
  | c :: r => if is_ws c then skip_ws r else s
  | [] => []
  end.

(** [string[idx:idx + len(p)] == p]: what follows the prefix. *)
Fixpoint strip_prefix (p s : pystr) : option pystr :=
  match p, s with
  | [], _ => Some s
  | a :: p', b :: s' => if a =? b then strip_prefix p' s' else None
  | _ :: _, [] => None
  end.

Definition hexval (c : N) : option N :=
  if is_digit c then Some (c - 48)
  else if (97 <=? c) && (c <=? 102) then Some (c - 87)
  else if (65 <=? c) && (c <=? 70) then Some (c - 55)
  else None.

(** [_decode_uXXXX]: exactly four hexadecimal digits (the accelerated
    scanner CPython uses by default). *)
Definition decode_uXXXX (a b c d : N) : option N :=
  match hexval a, hexval b, hexval c, hexval d with
  | Some x, Some y, Some z, Some w => Some (((x * 16 + y) * 16 + z) * 16 + w)
  | _, _, _, _ => None
  end.

Definition is_high_surrogate (u : N) : bool := (0xd800 <=? u) && (u <=? 0xdbff).
Definition is_low_surrogate (u : N) : bool := (0xdc00 <=? u) && (u <=? 0xdfff).

(** [0x10000 + (((uni - 0xd800) << 10) | (uni2 - 0xdc00))] *)
Definition join_surrogates (uni uni2 : N) : N :=
  0x10000 + N.lor (N.shiftl (uni - 0xd800) 10) (uni2 - 0xdc00).

(** The [BACKSLASH] table. *)
Definition backslash (esc : N) : option N :=
  if esc =? 34 then Some 34          (* quotation mark *)
  else if esc =? 92 then Some 92     (* backslash *)
  else if esc =? 47 then Some 47     (* solidus *)
  else if esc =? 98 then Some 8      (* backspace *)
  else if esc =? 102 then Some 12    (* form feed *)
  else if esc =? 110 then Some 10    (* newline *)
  else if esc =? 114 then Some 13    (* carriage return *)
  else if esc =? 116 then Some 9     (* tab *)
  else None.

Definition push {A} (c : A) (res : option (list A * pystr)) : option (list A * pystr) :=
  match res with
  | Some (l, r) => Some (c :: l, r)
  | None => None
  end.

(** [scanstring(s, end, strict=True)], from the character after the opening
    quote: the decoded string and what follows the closing quote, or [None]
    for a [JSONDecodeError]. *)
Fixpoint scanstring (s : pystr) : option (pystr * pystr) :=
  match s with
  | [] => None                                  (* unterminated *)
  | c :: r =>
      if c =? 34 then Some ([], r)
      else if c =? 92 then
        match r with
        | [] => None                            (* unterminated *)
        | esc :: r1 =>
            if esc =? 117 then
              match r1 with
              | h1 :: h2 :: h3 :: h4 :: r2 =>
                  match decode_uXXXX h1 h2 h3 h4 with
                  | None => None                (* invalid uXXXX escape *)
                  | Some uni =>
                      match r2 with
                      | bs :: u :: r2' =>
                          if is_high_surrogate uni && (bs =? 92) && (u =? 117) then
                            match r2' with
                            | g1 :: g2 :: g3 :: g4 :: r3 =>
                                match decode_uXXXX g1 g2 g3 g4 with
                                | None => None
                                | Some uni2 =>
                                    if is_low_surrogate uni2
                                    then push (join_surrogates uni uni2) (scanstring r3)
                                    else push uni (scanstring r2)
                                end
                            | _ => None
                            end
                          else push uni (scanstring r2)
                      | _ => push uni (scanstring r2)
                      end
                  end
              | _ => None                       (* invalid uXXXX escape *)
              end
            else
              match backslash esc with
              | Some char => push char (scanstring r1)
              | None => None                    (* invalid escape *)
              end
        end
      else if c <? 32 then None                 (* invalid control character *)
      else push c (scanstring r)
  end.

(** [NUMBER_RE], group by group: an integer part (an optional minus sign,
    then a lone 0 or a digit 1-9 and any digits), an optional fraction (a dot
    and at least one digit) and an optional exponent (e or E, an optional
    sign, at least one digit). Each function returns what its group matched
    and what follows. *)
Fixpoint span_digits (s : pystr) : pystr * pystr :=
  match s with
  | c :: r =>
      if is_digit c then let '(d, r') := span_digits r in (c :: d, r')
      else ([], s)
  | [] => ([], [])
  end.

Definition match_natural (s : pystr) : option (pystr * pystr) :=
  match s with
  | c :: r =>
      if c =? 48 then Some ([48], r)
      else if is_digit c then
        let '(d, r') := span_digits r in Some (c :: d, r')
      else None
  | [] => None
  end.

Definition match_integer (s : pystr) : option (pystr * pystr) :=
  match s with
  | c :: r =>
      if c =? 45 then
        match match_natural r with
        | Some (d, r') => Some (45 :: d, r')
        | None => None
        end
      else match_natural s
  | [] => None
  end.

Definition match_frac (s : pystr) : pystr * pystr :=
  match s with
  | c :: r =>
      if c =? 46 then
        match span_digits r with
        | ([], _) => ([], s)
        | (d, r') => (46 :: d, r')
        end
      else ([], s)
  | [] => ([], s)
  end.

Definition match_exp (s : pystr) : pystr * pystr :=
  match s with
  | c :: r =>
      if (c =? 101) || (c =? 69) then
        let '(sign, r1) :=
          match r with
          | c1 :: r1 => if (c1 =? 45) || (c1 =? 43) then ([c1], r1) else ([], r)
          | [] => ([], r)
          end in
        match span_digits r1 with
        | ([], _) => ([], s)
        | (d, r') => (c :: sign ++ d, r')
        end
      else ([], s)
  | [] => ([], s)
  end.

(** [match_number(string, idx)]: the groups [(integer, frac, exp)] and what
    follows the match. *)
Definition match_number (s : pystr) : option (pystr * pystr * pystr * pystr) :=
  match match_integer s with
  | None => None
  | Some (integer, r) =>
      let '(frac, r1) := match_frac r in
      let '(exp, r2) := match_exp r1 in
      Some (integer, frac, exp, r2)
  end.

(** [dict(pairs)]: a key met again keeps its place and takes the new value. *)
Fixpoint dict_set (d : list (pystr * pyobj)) (k : pystr) (v : pyobj)
  : list (pystr * pyobj) :=
  match d with
  | [] => [(k, v)]
  | (k', v') :: d' =>
      if decide (k = k') then (k, v) :: d' else (k', v') :: dict_set d' k v
  end.

Definition dict_of_pairs (pairs : list (pystr * pyobj)) : list (pystr * pyobj) :=
  fold_left (fun d kv => dict_set d (fst kv) (snd kv)) pairs [].

(** The [while True] loop of [JSONArray], entered in front of a value. *)
Fixpoint JSONArray_loop (scan_once : pystr -> option (pyobj * pystr))
    (fuel : nat) (s : pystr) : option (list pyobj * pystr) :=
  match fuel with
  | O => None
  | S fuel =>
      match scan_once s with
      | None => None                            (* expecting value *)
      | Some (value, r) =>
          match skip_ws r with
          | c :: r' =>
              if c =? 93 then Some ([value], r')
              else if c =? 44 then push value (JSONArray_loop scan_once fuel (skip_ws r'))
              else None                         (* expecting ',' delimiter *)
          | [] => None
          end
      end
  end.

(** [JSONArray((s, end), scan_once)], from the character after ['[']. *)
Definition JSONArray (scan_once : pystr -> option (pyobj * pystr))
    (fuel : nat) (s : pystr) : option (pyobj * pystr) :=
  match skip_ws s with
  | c :: r =>
      if c =? 93 then Some (PyList [], r)
      else
        match JSONArray_loop scan_once fuel (c :: r) with
        | Some (values, r') => Some (PyList values, r')
        | None => None
        end
  | [] => None
  end.

(** The [while True] loop of [JSONObject], entered after the opening quote
    of a key. *)
Fixpoint JSONObject_loop (scan_once : pystr -> option (pyobj * pystr))
    (fuel : nat) (s : pystr) : option (list (pystr * pyobj) * pystr) :=
  match fuel with
  | O => None
  | S fuel =>
      match scanstring s with
      | None => None
      | Some (key, r) =>
          match skip_ws r with
          | c :: r1 =>
              if c =? 58 then
                match scan_once (skip_ws r1) with
                | None => None                  (* expecting value *)
                | Some (value, r2) =>
                    match skip_ws r2 with
                    | c2 :: r3 =>
                        if c2 =? 125 then Some ([(key, value)], r3)
                        else if c2 =? 44 then
                          match skip_ws r3 with
                          | q :: r4 =>
                              if q =? 34
                              then push (key, value) (JSONObject_loop scan_once fuel r4)
                              else None         (* expecting property name *)
                          | [] => None
                          end
                        else None               (* expecting ',' delimiter *)
                    | [] => None
                    end
                end
              else None                         (* expecting ':' delimiter *)
          | [] => None
          end
      end
  end.

(** [JSONObject((s, end), strict, scan_once, ...)], from the character after
    ['{']. *)
Definition JSONObject (scan_once : pystr -> option (pyobj * pystr))
    (fuel : nat) (s : pystr) : option (pyobj * pystr) :=
  match skip_ws s with
  | c :: r =>
      if c =? 125 then Some (PyDict [], r)
      else if c =? 34 then
        match JSONObject_loop scan_once fuel r with
        | Some (pairs, r') => Some (PyDict (dict_of_pairs pairs), r')
        | None => None
        end
      else None                                 (* expecting property name *)
  | [] => None
  end.

(** [_CONSTANTS.__getitem__], the default [parse_constant]. *)
Definition CONSTANTS (name : pystr) : option spec_float :=
  if decide (name = py "-Infinity") then Some (S754_infinity true)
  else if decide (name = py "Infinity") then Some (S754_infinity false)
  else if decide (name = py "NaN") then Some S754_nan
  else None.

(** A [parse_constant] that raises: the documented way to make the decoder
    refuse the three names that are not JSON. *)
Definition no_constants (name : pystr) : option spec_float := None.

Section Decoder.
Context `{FloatConv}.
(** [context.parse_constant]; [None] when the hook raises. *)
Variable parse_constant : pystr -> option spec_float.

Definition constant (name r : pystr) : option (pyobj * pystr) :=
  match parse_constant name with
  | Some f => Some (PyFloat f, r)
  | None => None
  end.

(** [_scan_once(string, idx)]. The fuel bounds the nesting depth and the
    number of items of a container; [S (length s)] is always enough (see
    [scan_once_fuel]). [None] stands for [JSONDecodeError]. *)
Fixpoint scan_once (fuel : nat) (s : pystr) : option (pyobj * pystr) :=
  match fuel with
  | O => None
  | S fuel =>
      match s with
      | [] => None
      | nextchar :: r =>
          if nextchar =? 34 then
            match scanstring r with
            | Some (str, r') => Some (PyStr str, r')
            | None => None
            end
          else if nextchar =? 123 then JSONObject (scan_once fuel) fuel r
          else if nextchar =? 91 then JSONArray (scan_once fuel) fuel r
          else
            match strip_prefix (py "null") s, strip_prefix (py "true") s,
                  strip_prefix (py "false") s with
            | Some r', _, _ => Some (PyNone, r')
            | None, Some r', _ => Some (PyBool true, r')
            | None, None, Some r' => Some (PyBool false, r')
            | None, None, None =>
                match match_number s with
                | Some (integer, frac, exp, r') =>
                    match frac, exp with
                    | [], [] => Some (PyInt (int_of_str integer), r')
                    | _, _ => Some (PyFloat (float_of_str (integer ++ frac ++ exp)), r')
                    end
                | None =>
                    match strip_prefix (py "NaN") s,
                          strip_prefix (py "Infinity") s,
                          strip_prefix (py "-Infinity") s with
                    | Some r', _, _ => constant (py "NaN") r'
                    | None, Some r', _ => constant (py "Infinity") r'
                    | None, None, Some r' => constant (py "-Infinity") r'
                    | None, None, None => None (* expecting value *)
                    end
                end
            end
      end
  end.

(** [json.loads(s, parse_constant=...)] for a [str]: the byte-order-mark
    check [s.startswith('\ufeff')], then [JSONDecoder.decode]. *)
Definition json_loads_with (s : pystr) : option pyobj :=
  if match s with c :: _ => c =? 0xfeff | [] => false end
  then None                                   (* unexpected UTF-8 BOM *)
  else
    let s1 := skip_ws s in
    match scan_once (S (length s1)) s1 with
    | Some (obj, r) =>
        match skip_ws r with
        | [] => Some obj
        | _ :: _ => None                      (* extra data *)
        end
    | None => None
    end.
End Decoder.

(** [json.loads(s)], as the script reaches it through [response.json()]. *)
Definition json_loads `{FloatConv} (s : pystr) : option pyobj :=
  json_loads_with CONSTANTS s.

(** ** The world of the script: effects as state and exceptions *)

(** What [requests.post(url, headers=..., data=...)] is called with. *)
Record request := {
  req_url : pystr;
  req_headers : list (pystr * pystr);
  req_data : list (pystr * pystr)
}.

(** What the script reads of a [requests.Response]: [status_code] and the
    decoded body [text]. [response.json()] is [json.loads] of that text (the
    response declares its charset, as the token endpoint does, so that
    [json()] and [text] decode the bytes alike). *)
Record response := {
  status_code : Z;
  text : pystr
}.

Inductive exn :=
| JSONDecodeError      (* raised by [response.json()] *)
| RequestException     (* raised by [requests.post]: no response at all *)
| EOFError             (* raised by [input] and [getpass] at the end of input *)
| UnicodeEncodeError   (* raised by a write to standard output *)
| OSError.             (* raised by [open] *)

(** What the script can change. *)
Record world := {
  stdout : pystr;                 (* everything written to standard output *)
  files : gmap (list N) (list N); (* the working directory: name to content *)
  posted : list request;          (* the calls to [requests.post], in order *)
  opened : list pystr             (* the files opened for writing, in order *)
}.

(** What the script cannot change: the operator at the two prompts and the
    remote service ([None]: the transport fails and [requests.post] raises). *)
Record env := {
  typed_username : pystr;
  typed_password : pystr;
  server : request -> option response
}.

Inductive outcome (A : Type) :=
| Returned (a : A)
| Raised (e : exn).
Arguments Returned {A} a.
Arguments Raised {A} e.

Definition prog (A : Type) : Type := env -> world -> outcome A * world.

#[global] Instance prog_ret : MRet prog :=
  fun A a _ w => (Returned a, w).

#[global] Instance prog_bind : MBind prog :=
  fun A B k m e w =>
    match m e w with
    | (Returned a, w') => k a e w'
    | (Raised x, w') => (Raised x, w')
    end.

(** [try: body except: handler] (a bare [except] catches everything); what
    [body] did before it raised stays done. *)
Definition try_except {A} (body handler : prog A) : prog A :=
  fun e w =>
    match body e w with
    | (Returned a, w') => (Returned a, w')
    | (Raised _, w') => handler e w'
    end.

Definition write_stdout (s : pystr) (w : world) : world :=
  {| stdout := stdout w ++ s; files := files w;
     posted := posted w; opened := opened w |}.

(** [print(s)] on a standard output that takes every character; see
    [print_on] for the one that may lack some. *)
Definition print (s : pystr) : prog unit :=
  fun _ w => (Returned tt, write_stdout (s ++ [10]) w).

(** [input(prompt)] when standard input is not a terminal and holds a line:
    the prompt goes to standard output, the answer comes from the operator;
    see [input_on] for the terminal and for the end of input. *)
Definition input (prompt : pystr) : prog pystr :=
  fun e w => (Returned (typed_username e), write_stdout prompt w).

(** [getpass(prompt)]: the prompt goes to the terminal device (or to standard
    error), never to standard output; the answer is not echoed. See
    [getpass_on] for the end of input. *)
Definition getpass (prompt : pystr) : prog pystr :=
  fun e w => (Returned (typed_password e), w).

(** [requests.post(url, headers=headers, data=data)]: one call, and the
    response it returns, which the service of [env] gives as a whole; see
    [send] for the requests that one call puts on the wire. *)
Definition requests_post (url : pystr) (headers data : list (pystr * pystr))
  : prog response :=
  fun e w =>
    let rq := {| req_url := url; req_headers := headers; req_data := data |} in
    let w' := {| stdout := stdout w; files := files w;
                 posted := posted w ++ [rq]; opened := opened w |} in
    match server e rq with
    | Some r => (Returned r, w')
    | None => (Raised RequestException, w')
    end.

(** [open(name, "w")] in a directory that can be written: the file is
    created or truncated. The handle is the name. See [open_w_on] for the
    directory that cannot. *)
Definition open_w (name : pystr) : prog pystr :=
  fun _ w =>
    (Returned name,
     {| stdout := stdout w; files := <[name := []]> (files w);
        posted := posted w; opened := opened w ++ [name] |}).

(** [f.write(s)] on a handle from [open_w]. *)
Definition file_write (f : pystr) (s : pystr) : prog unit :=
  fun _ w =>
    (Returned tt,
     {| stdout := stdout w;
        files := <[f := default [] (files w !! f) ++ s]> (files w);
        posted := posted w; opened := opened w |}).

Section Script.
Context `{FloatConv}.

(** [response.json()] *)
Definition response_json (r : response) : prog pyobj :=
  fun _ w =>
    match json_loads (text r) with
    | Some obj => (Returned obj, w)
    | None => (Raised JSONDecodeError, w)
    end.

(** [json.dump(obj, f, indent=indent)] *)
Definition json_dump (obj : pyobj) (f : pystr) (indent : nat) : prog unit :=
  file_write f (json_dumps indent obj).

Definition url : pystr := py "https://login.microsoftonline.com/common/oauth2/token".

Definition headers : list (pystr * pystr) :=
  [ (py "User-Agent",
     py "Mozilla/5.0 (PlayStation 4 3.11) AppleWebKit/537.73 (KHTML, like Gecko)");
    (py "Content-Type", py "application/x-www-form-urlencoded") ].

Definition data (email password : pystr) : list (pystr * pystr) :=
  [ (py "resource", py "https://management.azure.com");
    (py "client_id", py "1b730954-1685-4b74-9bfd-dac224a7b894");
    (py "grant_type", py "password");
    (py "username", email);
    (py "password", password);
    (py "scope", py "openid") ].

Definition token_file : pystr := py "token_scope.json".

(** The three messages; the pictographs are U+2705, U+1F4BE and U+274C. *)
Definition msg_retrieved : pystr :=
  [10; 0x2705] ++ py " Tokens retrieved successfully." ++ [10].
Definition msg_saved : pystr :=
  [10; 0x1f4be] ++ py " Tokens saved to token_scope.json".
Definition msg_failed (status : Z) : pystr :=
  [10; 0x274c] ++ py " Login failed (" ++ int_repr status ++ py "):" ++ [10].

(** The script, statement by statement. *)
Definition main : prog unit :=
  email ← input (py "Enter username (email): ");
  password ← getpass (py "Enter password: ");
  response ← requests_post url headers (data email password);
  if (status_code response =? 200)%Z then
    print msg_retrieved;;
    token_data ← response_json response;
    print (json_dumps 7 token_data);;
    f ← open_w token_file;
    json_dump token_data f 2;;
    print msg_saved
  else
    print (msg_failed (status_code response));;
    try_except
      (error_data ← response_json response;
       print (json_dumps 2 error_data))
      (print (text response)).
End Script.

(** ** The script on a host that may fail it

    [main] is the script in front of an operator who answers both prompts,
    over a standard output that takes every character and the prompt of
    [input], in a working directory that can be written.  [script] is the
    same text on any host: a prompt may meet the end of input, the encoding
    of standard output may lack a character, the file may not open.  On a
    host that fails nothing the two agree (see [script_cooperative]). *)

Record host := {
  (** [input] finds a line to read; without one it raises [EOFError] *)
  username_given : bool;
  (** the same for [getpass] *)
  password_given : bool;
  (** [input] writes its prompt to standard output, as it does when standard
      input or output is not a terminal; on a terminal CPython hands the
      prompt to the line reader of the C library, which writes it to
      standard error *)
  prompt_on_stdout : bool;
  (** the characters that [sys.stdout] can write: those that its encoding
      has, under its error handler *)
  encodes : N -> bool;
  (** [open(name, "w")] succeeds in the working directory *)
  writable : bool
}.

Definition raise {A} (x : exn) : prog A := fun _ w => (Raised x, w).

(** [sys.stdout.write(s)]: the text is encoded as a whole, and nothing of it
    is written when one of its characters has no encoding. *)
Definition stdout_write (h : host) (s : pystr) : prog unit :=
  fun _ w =>
    if forallb (encodes h) s then (Returned tt, write_stdout s w)
    else (Raised UnicodeEncodeError, w).

(** [print(s)]: [file.write(s)], then [file.write("\n")]. *)
Definition print_on (h : host) (s : pystr) : prog unit :=
  stdout_write h s;; stdout_write h [10].

(** [input(prompt)]: the prompt is encoded as standard output would, and
    written there or to standard error; then a line is read. *)
Definition input_on (h : host) (prompt : pystr) : prog pystr :=
  fun e w =>
    if forallb (encodes h) prompt then
      let w' := if prompt_on_stdout h then write_stdout prompt w else w in
      if username_given h then (Returned (typed_username e), w')
      else (Raised EOFError, w')
    else (Raised UnicodeEncodeError, w).

(** [getpass(prompt)] *)
Definition getpass_on (h : host) (prompt : pystr) : prog pystr :=
  if password_given h then getpass prompt else raise EOFError.

(** [open(name, "w")] *)
Definition open_w_on (h : host) (name : pystr) : prog pystr :=
  if writable h then open_w name else raise OSError.

Section ScriptOn.
Context `{FloatConv}.
Variable h : host.

(** The script, statement by statement, on the host [h]. *)
Definition script : prog unit :=
  email ← input_on h (py "Enter username (email): ");
  password ← getpass_on h (py "Enter password: ");
  response ← requests_post url headers (data email password);
  if (status_code response =? 200)%Z then
    print_on h msg_retrieved;;
    token_data ← response_json response;
    print_on h (json_dumps 7 token_data);;
    f ← open_w_on h token_file;
    json_dump token_data f 2;;
    print_on h msg_saved
  else
    print_on h (msg_failed (status_code response));;
    try_except
      (error_data ← response_json response;
       print_on h (json_dumps 2 error_data))
      (print_on h (text response)).
End ScriptOn.

(** ** [requests.post] on the wire: the redirects it follows

    [requests.post] returns the last response of a chain: the script passes
    no [allow_redirects=False], so the session follows the redirects it is
    answered with ([Session.send] and [resolve_redirects]), and one call
    can send more than one request. *)

Inductive http_method := GET | POST.

(** A request as it leaves: of the headers, those the script sets. *)
Record wire_request := {
  wr_method : http_method;
  wr_url : pystr;
  wr_headers : list (pystr * pystr);
  wr_body : list (pystr * pystr)
}.

(** An answer as it arrives: the status, the [Location] header (resolved
    against the URL of the request) when there is one, and the body. *)
Record wire_answer := {
  wa_status : Z;
  wa_location : option pystr;
  wa_text : pystr
}.

(** The remote side: [None] when the connection fails. *)
Definition service : Type := wire_request -> option wire_answer.

(** [Response.is_redirect]: a [Location] header and a status in
    [REDIRECT_STATI]. *)
Definition is_redirect (a : wire_answer) : bool :=
  match wa_location a with
  | Some _ =>
      (wa_status a =? 301)%Z || (wa_status a =? 302)%Z || (wa_status a =? 303)%Z
      || (wa_status a =? 307)%Z || (wa_status a =? 308)%Z
  | None => false
  end.

(** [rebuild_method]: 303 and 302 turn the request into a GET, 301 turns a
    POST into a GET; 307 and 308 keep the method. *)
Definition rebuild_method (m : http_method) (status : Z) : http_method :=
  if (status =? 303)%Z then GET
  else if (status =? 302)%Z then GET
  else match m with
       | POST => if (status =? 301)%Z then GET else POST
       | GET => GET
       end.

(** The next request of [resolve_redirects]: on 307 and 308 the body and
    the headers go along; on the other statuses the body is dropped and the
    headers that describe it are purged. *)
Definition next_request (rq : wire_request) (a : wire_answer) (location : pystr)
  : wire_request :=
  if (wa_status a =? 307)%Z || (wa_status a =? 308)%Z then
    {| wr_method := rebuild_method (wr_method rq) (wa_status a);
       wr_url := location; wr_headers := wr_headers rq; wr_body := wr_body rq |}
  else
    {| wr_method := rebuild_method (wr_method rq) (wa_status a);
       wr_url := location;
       wr_headers :=
         filter (fun kv => fst kv <> py "Content-Length"
                           /\ fst kv <> py "Content-Type"
                           /\ fst kv <> py "Transfer-Encoding") (wr_headers rq);
       wr_body := [] |}.

(** [Session.send] with [allow_redirects=True]: the requests sent, in
    order, and the response returned; [None] when the connection fails
    ([ConnectionError]) or when there are more redirects than allowed
    ([TooManyRedirects]). *)
Fixpoint send (sv : service) (redirects_left : nat) (rq : wire_request)
  : list wire_request * option response :=
  match sv rq with
  | None => ([rq], None)
  | Some a =>
      match wa_location a, is_redirect a with
      | Some location, true =>
          match redirects_left with
          | O => ([rq], None)
          | S n =>
              let '(sent, res) := send sv n (next_request rq a location) in
              (rq :: sent, res)
          end
      | _, _ => ([rq], Some {| status_code := wa_status a; text := wa_text a |})
      end
  end.

(** [Session.max_redirects] *)
Definition max_redirects : nat := 30.

(** The request that a call to [requests.post] starts with. *)
Definition first_request (rq : request) : wire_request :=
  {| wr_method := POST; wr_url := req_url rq;
     wr_headers := req_headers rq; wr_body := req_data rq |}.

Definition answer (sv : service) (rq : request) : option response :=
  snd (send sv max_redirects (first_request rq)).


(** ** Well-formed strings, texts and objects *)

Definition is_surrogate (c : N) : bool := (0xd800 <=? c) && (c <=? 0xdfff).

(** A Unicode scalar value: what a codec yields when it decodes bytes. *)
Definition is_scalar (c : N) : bool := (c <? 0x110000) && negb (is_surrogate c).

(** A decoded body: scalar values only. *)
Definition text_ok (s : pystr) : Prop := Forall (fun c => is_scalar c = true) s.

(** A [str] whose code points are in range and in which no high surrogate is
    directly followed by a low one (the encoder would write such a pair as
    the two escapes of one astral character). *)
Fixpoint str_ok (s : pystr) : bool :=
  match s with
  | [] => true
  | c :: r =>
      (c <? 0x110000)
      && negb (is_high_surrogate c
               && match r with c2 :: _ => is_low_surrogate c2 | [] => false end)
      && str_ok r
  end.

(** [NUMBER_RE] matches all of [s], with a fraction or an exponent: the
    lexemes the scanner hands to [float]. *)
Definition float_lexeme (s : pystr) : bool :=
  match match_number s with
  | Some (_, [], [], _) => false
  | Some (_, _, _, []) => true
  | _ => false
  end.

Definition is_finite (f : spec_float) : bool :=
  match f with
  | S754_zero _ | S754_finite _ _ _ => true
  | _ => false
  end.

(** What is assumed of the platform: [repr] of a finite float that [float]
    returned is a float lexeme, and [float] reads it back. *)
Class FloatConvLaws `{FloatConv} := {
  repr_lexeme : forall lex,
    float_lexeme lex = true -> is_finite (float_of_str lex) = true ->
    float_lexeme (float_repr (float_of_str lex)) = true;
  repr_roundtrip : forall lex,
    float_lexeme lex = true -> is_finite (float_of_str lex) = true ->
    float_of_str (float_repr (float_of_str lex)) = float_of_str lex
}.

Section WellFormed.
Context `{FloatConv}.
Variable parse_constant : pystr -> option spec_float.

(** A float that the encoder and the decoder agree on. *)
Definition float_ok (f : spec_float) : Prop :=
  match f with
  | S754_nan => parse_constant (py "NaN") = Some f
  | S754_infinity false => parse_constant (py "Infinity") = Some f
  | S754_infinity true => parse_constant (py "-Infinity") = Some f
  | _ => float_lexeme (float_repr f) = true /\ float_of_str (float_repr f) = f
  end.

Fixpoint wf (o : pyobj) : Prop :=
  match o with
  | PyNone | PyBool _ | PyInt _ => True
  | PyFloat f => float_ok f
  | PyStr s => str_ok s = true
  | PyList l => fold_right (fun x P => wf x /\ P) True l
  | PyDict d =>
      NoDup (map fst d)
      /\ fold_right (fun kv P => (str_ok (fst kv) = true /\ wf (snd kv)) /\ P) True d
  end.
End WellFormed.

(** No NaN and no infinity anywhere in the object. *)
Fixpoint finite_floats (o : pyobj) : bool :=
  match o with
  | PyFloat f => is_finite f
  | PyList l => forallb finite_floats l
  | PyDict d => forallb (fun kv => finite_floats (snd kv)) d
  | _ => true
  end.

(** What may follow a value in the encoder's output: nothing, a comma or a
    newline. *)
Definition ends_token (rest : pystr) : bool :=
  match rest with
  | [] => true
  | c :: _ => (c =? 44) || (c =? 10)
  end.

(** The text starts with the escape of a low surrogate (or with a broken
    escape): what the decoder would join to a high surrogate before it. *)
Definition starts_low_escape (t : pystr) : bool :=
  match t with
  | bs :: u :: t' =>
      (bs =? 92) && (u =? 117)
      && match t' with
         | g1 :: g2 :: g3 :: g4 :: _ =>
             match decode_uXXXX g1 g2 g3 g4 with
             | Some u2 => is_low_surrogate u2
             | None => true
             end
         | _ => true
         end
  | _ => false
  end.

(** A character that can start a value: not white space, not a closing
    bracket. *)
Definition starts_value (t : pystr) : Prop :=
  exists c r, t = c :: r /\ is_ws c = false /\ c <> 93 /\ c <> 125 /\ c <> 0xfeff.

Section ReadsBack.
Context `{FloatConv}.
Variable parse_constant : pystr -> option spec_float.

(** With fuel [f], the scanner reads the encoding of [o] back, whatever
    token end follows it. *)
Definition reads_back (f indent level : nat) (o : pyobj) : Prop :=
  forall rest, ends_token rest = true ->
    (length (iterencode indent level o ++ rest) < f)%nat ->
    scan_once parse_constant f (iterencode indent level o ++ rest) = Some (o, rest).
End ReadsBack.

(** What [scanstring] guarantees when it returns [str] and leaves [r] of
    [s]: it consumed something, and on a decoded text the string is
    well-formed and starts with a low surrogate only if the text starts with
    the escape of one. *)
Definition scanned_ok (s str r : pystr) : Prop :=
  suffix r s /\ (length r < length s)%nat
  /\ (text_ok s ->
      str_ok str = true
      /\ (forall c str', str = c :: str' -> is_low_surrogate c = true ->
                         starts_low_escape s = true)).

(** What a sound scanner guarantees when it returns [v] and leaves [r] of
    [s]: it consumed something, and on a decoded text [v] has the property
    [W]. *)
Definition scanner_sound (W : pyobj -> Prop)
    (scan : pystr -> option (pyobj * pystr)) : Prop :=
  forall s v r, scan s = Some (v, r) ->
    suffix r s /\ (length r < length s)%nat /\ (text_ok s -> W v).

(** The same for any property [T] of the text in the place of being decoded:
    [scanner_sound W] is [scanner_inv text_ok W]. *)
Definition scanner_inv (T : pystr -> Prop) (W : pyobj -> Prop)
    (scan : pystr -> option (pyobj * pystr)) : Prop :=
  forall s v r, scan s = Some (v, r) ->
    suffix r s /\ (length r < length s)%nat /\ (T s -> W v).

(** ** Names for what the properties of the script speak of *)

(** [json.loads(s, parse_constant=reject)]: the decoder kept to the JSON
    grammar, without [NaN], [Infinity] and [-Infinity]. *)
Definition json_loads_strict `{FloatConv} (s : pystr) : option pyobj :=
  json_loads_with no_constants s.

(** The one request of a run. *)
Definition the_request `{FloatConv} (e : env) : request :=
  {| req_url := url; req_headers := headers;
     req_data := data (typed_username e) (typed_password e) |}.

(** The world once [requests.post] has been called. *)
Definition after_post `{FloatConv} (e : env) (w : world) : world :=
  {| stdout := stdout w ++ py "Enter username (email): "; files := files w;
     posted := posted w ++ [the_request e]; opened := opened w |}.

(** What the failure branch prints after its first line. *)
Definition failure_report `{FloatConv} (r : response) : pystr :=
  match json_loads (text r) with
  | Some error_data => json_dumps 2 error_data
  | None => text r
  end.

(** A platform on which every float literal reads as [0.0]: enough to run
    the script on bodies that hold no float literal. *)
Definition zero_conv : FloatConv :=
  {| float_of_str := fun _ => S754_zero false; float_repr := fun _ => py "0.0" |}.

Definition empty_world : world :=
  {| stdout := []; files := ∅; posted := []; opened := [] |}.

(** An operator and a service that answers every request with the same
    response. *)
Definition answering (password : pystr) (r : response) : env :=
  {| typed_username := py "user@example.com"; typed_password := password;
     server := fun _ => Some r |}.

(** Sample responses: a 200 with an HTML body, a 200 with a compact JSON
    object (an opening brace, the key a in quotes, a colon, 1, a closing
    brace), a 200 whose body is the name NaN, and a 401 with a plain-text
    body. *)
Definition html_200 : response := {| status_code := 200; text := py "<html>" |}.
Definition compact_200 : response :=
  {| status_code := 200; text := [123; 34; 97; 34; 58; 49; 125] |}.
Definition nan_200 : response := {| status_code := 200; text := py "NaN" |}.
Definition plain_401 : response := {| status_code := 401; text := py "denied" |}.

(** Everything a run prints, as a function of the answer to its request
    ([None]: no response at all). *)
Definition printed `{FloatConv} (answer : option response) : pystr :=
  py "Enter username (email): "
  ++ match answer with
     | None => []
     | Some r =>
         if (status_code r =? 200)%Z then
           (msg_retrieved ++ [10])
           ++ match json_loads (text r) with
              | Some token_data =>
                  (json_dumps 7 token_data ++ [10]) ++ (msg_saved ++ [10])
              | None => []
              end
         else (msg_failed (status_code r) ++ [10]) ++ failure_report r ++ [10]
     end.

(** An operator in front of a service that cannot be reached. *)
Definition unreachable (password : pystr) : env :=
  {| typed_username := py "user@example.com"; typed_password := password;
     server := fun _ => None |}.

Definition json_401 : response :=
  {| status_code := 401; text := [123; 34; 101; 34; 58; 55; 125] |}.

(** A newline or a printable ASCII character. *)
Definition printable (c : N) : bool := (c =? 10) || ((32 <=? c) && (c <=? 126)).

(** No dictionary of the object, at any depth, has the same key twice. *)
Fixpoint unique_keys (o : pyobj) : Prop :=
  match o with
  | PyList l => fold_right (fun x P => unique_keys x /\ P) True l
  | PyDict d =>
      NoDup (map fst d)
      /\ fold_right (fun kv P => unique_keys (snd kv) /\ P) True d
  | _ => True
  end.

(** [d.get(k)] on a dictionary, and on a list of pairs read from its start. *)
Fixpoint dict_get (d : list (pystr * pyobj)) (k : pystr) : option pyobj :=
  match d with
  | [] => None
  | (k', v) :: d' => if decide (k = k') then Some v else dict_get d' k
  end.

(** A 200 whose body is a JSON string of one character, U+00E9, between
    quotes. *)
Definition accent_200 : response := {| status_code := 200; text := [34; 233; 34] |}.

(** ** What the decoder reads from the encoder's output, for any object *)

(** The two surrogates that [py_encode_basestring_ascii] writes for a
    character beyond U+FFFF. *)
Definition astral_halves (c : N) : N * N :=
  let n := c - 0x10000 in
  (N.lor 0xd800 (N.land (N.shiftr n 10) 0x3ff), N.lor 0xdc00 (N.land n 0x3ff)).

(** The string [scanstring] reads from the escapes of [s]: a high surrogate
    directly followed by a low one comes back as one character. *)
Fixpoint canon_str (s : pystr) : pystr :=
  match s with
  | [] => []
  | c :: r =>
      if 0x10000 <=? c then
        (let '(s1, s2) := astral_halves c in join_surrogates s1 s2) :: canon_str r
      else if is_high_surrogate c then
        match r with
        | c2 :: r2 =>
            if is_low_surrogate c2 then join_surrogates c c2 :: canon_str r2
            else c :: canon_str r
        | [] => [c]
        end
      else c :: canon_str r
  end.

Section Readable.
Context `{FloatConv}.
Variable parse_constant : pystr -> option spec_float.

(** A float whose text the decoder takes: the [repr] of a finite float is a
    float lexeme, and the hook knows the name of any other. *)
Definition float_readable (f : spec_float) : Prop :=
  match f with
  | S754_nan => parse_constant (py "NaN") = Some f
  | S754_infinity false => parse_constant (py "Infinity") = Some f
  | S754_infinity true => parse_constant (py "-Infinity") = Some f
  | _ => float_lexeme (float_repr f) = true
  end.

Fixpoint readable (o : pyobj) : Prop :=
  match o with
  | PyFloat f => float_readable f
  | PyList l => fold_right (fun x P => readable x /\ P) True l
  | PyDict d => fold_right (fun kv P => readable (snd kv) /\ P) True d
  | _ => True
  end.
End Readable.

Section Canon.
Context `{FloatConv}.

Definition canon_float (f : spec_float) : spec_float :=
  if is_finite f then float_of_str (float_repr f) else f.

(** The object read from the encoding of [o]: strings as [scanstring] reads
    them, floats through their [repr], and [dict(pairs)] of the pairs. *)
Fixpoint canon (o : pyobj) : pyobj :=
  match o with
  | PyFloat f => PyFloat (canon_float f)
  | PyStr s => PyStr (canon_str s)
  | PyList l => PyList (map canon l)
  | PyDict d =>
      PyDict (dict_of_pairs (map (fun kv => (canon_str (fst kv), canon (snd kv))) d))
  | _ => o
  end.

(** With fuel [f], the scanner reads the encoding of [o] as [canon o]. *)
Definition reads_canon (parse_constant : pystr -> option spec_float)
    (f indent level : nat) (o : pyobj) : Prop :=
  forall rest, ends_token rest = true ->
    (length (iterencode indent level o ++ rest) < f)%nat ->
    scan_once parse_constant f (iterencode indent level o ++ rest)
    = Some (canon o, rest).
End Canon.

(** Every string of the object, keys included, is well-formed. *)
Fixpoint strings_ok (o : pyobj) : bool :=
  match o with
  | PyStr s => str_ok s
  | PyList l => forallb strings_ok l
  | PyDict d => forallb (fun kv => str_ok (fst kv) && strings_ok (snd kv)) d
  | _ => true
  end.

(** A host that fails nothing. *)
Definition cooperative : host :=
  {| username_given := true; password_given := true; prompt_on_stdout := true;
     encodes := fun _ => true; writable := true |}.

(** A terminal whose standard output is UTF-8: every scalar value has an
    encoding, a surrogate has none; the prompt of [input] goes to standard
    error. *)
Definition utf8_terminal : host :=
  {| username_given := true; password_given := true; prompt_on_stdout := false;
     encodes := is_scalar; writable := true |}.

(** A terminal at the end of its input: the first prompt finds no line. *)
Definition closed_terminal : host :=
  {| username_given := false; password_given := false; prompt_on_stdout := false;
     encodes := is_scalar; writable := true |}.

(** The world once [requests.post] has been called, on a host. *)
Definition after_post_on `{FloatConv} (h : host) (e : env) (w : world) : world :=
  {| stdout := stdout w
               ++ (if prompt_on_stdout h then py "Enter username (email): " else []);
     files := files w;
     posted := posted w ++ [the_request e]; opened := opened w |}.

(** A 401 whose body is one lone surrogate, U+D800, and a 200 whose body is
    a JSON string of two characters, U+D800 and U+DC00, between quotes. *)
Definition surrogate_401 : response := {| status_code := 401; text := [0xd800] |}.
Definition pair_200 : response :=
  {| status_code := 200; text := [34; 0xd800; 0xdc00; 34] |}.




(** * Part II: the facts *)

(** ** Characters and decimal digits *)

Lemma uint_of_chars_chars d : uint_of_chars (uint_chars d) = d.
Proof. induction d; simpl; try reflexivity; unfold digit_cons; simpl; congruence. Qed.

Lemma uint_chars_digits d : Forall (fun c => is_digit c = true) (uint_chars d).
Proof. induction d; simpl; constructor; auto. Qed.

Lemma span_digits_app ds rest :
  Forall (fun c => is_digit c = true) ds ->
  match rest with [] => True | c :: _ => is_digit c = false end ->
  span_digits (ds ++ rest) = (ds, rest).
Proof.
  intros Hd Hr. induction Hd as [|c ds Hc _ IH]; simpl.
  - destruct rest as [|c r]; [reflexivity|]. simpl. now rewrite Hr.
  - now rewrite Hc, IH.
Qed.


Lemma pos_to_uint_head p :
  exists c r, uint_chars (Pos.to_uint p) = c :: r
    /\ is_digit c = true /\ c <> 48
    /\ Forall (fun c => is_digit c = true) r.
Proof.
  assert (Hn : Decimal.unorm (Pos.to_uint p) = Pos.to_uint p).
  { rewrite <- DecimalPos.Unsigned.to_of, DecimalPos.Unsigned.of_to. reflexivity. }
  assert (Hz : Decimal.nzhead (Pos.to_uint p) = Pos.to_uint p).
  { rewrite <- Hn at 2. symmetry. apply unorm_nzhead.
    intros Hnil. apply unorm_0 in Hnil. rewrite Hn in Hnil.
    now apply DecimalPos.Unsigned.to_uint_nonzero in Hnil. }
  pose proof (DecimalPos.Unsigned.to_uint_nonnil p) as Hnn.
  pose proof (uint_chars_digits (Pos.to_uint p)) as Hall.
  destruct (Pos.to_uint p) as [|u|u|u|u|u|u|u|u|u|u]; try congruence;
    try (simpl in Hall |- *; inversion Hall; subst;
         eexists _, _; split; [reflexivity|];
         split; [reflexivity|]; split; [discriminate | assumption]).
  exfalso. simpl in Hz. now apply nzhead_nonzero in Hz.
Qed.

Lemma int_of_str_repr z : int_of_str (int_repr z) = z.
Proof.
  unfold int_repr, int_of_str. pose proof (DecimalZ.of_to z) as Hz.
  destruct z as [|p|p]; simpl Z.to_int in *.
  - reflexivity.
  - destruct (pos_to_uint_head p) as (c & r & E & Hd & _ & _).
    rewrite E.
    destruct (N.eqb_spec c 45) as [->|_]; [discriminate Hd |].
    rewrite <- E, uint_of_chars_chars. exact Hz.
  - simpl. rewrite uint_of_chars_chars. exact Hz.
Qed.

(** The scanner reads [int_repr z] back as the integer lexeme. *)
Lemma match_integer_repr z rest :
  match rest with [] => True | c :: _ => is_digit c = false end ->
  match_integer (int_repr z ++ rest) = Some (int_repr z, rest).
Proof.
  intros Hr. unfold int_repr. destruct z as [|p|p]; simpl Z.to_int.
  - reflexivity.
  - destruct (pos_to_uint_head p) as (c & r & E & Hd & Hz & Hall). rewrite E.
    unfold match_integer, match_natural. cbn [app].
    destruct (N.eqb_spec c 45) as [->|_]; [discriminate Hd|].
    destruct (N.eqb_spec c 48) as [->|_]; [congruence|].
    rewrite Hd, (span_digits_app r rest Hall Hr). reflexivity.
  - destruct (pos_to_uint_head p) as (c & r & E & Hd & Hz & Hall). rewrite E.
    unfold match_integer, match_natural. cbn [app N.eqb Pos.eqb].
    destruct (N.eqb_spec c 48) as [->|_]; [congruence|].
    rewrite Hd, (span_digits_app r rest Hall Hr). reflexivity.
Qed.
(** ** Bit arithmetic of the surrogate pairs and hexadecimal digits *)

Lemma lor_add a b k : b < 2 ^ k -> N.lor (a * 2 ^ k) b = a * 2 ^ k + b.
Proof.
  intros Hb. rewrite <- N.lxor_lor, N.add_nocarry_lxor; try reflexivity.
  all: apply N.bits_inj; intros i; rewrite N.land_spec, N.bits_0;
    destruct (N.lt_ge_cases i k) as [Hi|Hi].
  all: try (rewrite N.mul_pow2_bits_low by assumption; reflexivity).
  all: replace (N.testbit b i) with false; [apply andb_false_r|].
  all: symmetry; destruct (N.eq_dec b 0) as [->|Hb0]; [apply N.bits_0|].
  all: apply N.bits_above_log2; apply N.log2_lt_pow2; [lia|].
  all: eapply N.lt_le_trans; [exact Hb|]; apply N.pow_le_mono_r; lia.
Qed.

Lemma hexval_hexdigit n : n < 16 -> hexval (hexdigit n) = Some n.
Proof.
  intros Hn. unfold hexdigit, hexval, is_digit.
  destruct (N.ltb_spec n 10).
  - replace ((48 <=? 48 + n) && (48 + n <=? 57)) with true
      by (symmetry; apply andb_true_iff; split; apply N.leb_le; lia).
    f_equal; lia.
  - replace ((48 <=? 87 + n) && (87 + n <=? 57)) with false
      by (symmetry; apply andb_false_iff; right; apply N.leb_gt; lia).
    replace ((97 <=? 87 + n) && (87 + n <=? 102)) with true
      by (symmetry; apply andb_true_iff; split; apply N.leb_le; lia).
    f_equal; lia.
Qed.

Lemma decode_hex4 n :
  n < 65536 ->
  decode_uXXXX (hexdigit (n / 4096 mod 16)) (hexdigit (n / 256 mod 16))
               (hexdigit (n / 16 mod 16)) (hexdigit (n mod 16)) = Some n.
Proof.
  intros Hn. unfold decode_uXXXX.
  rewrite !hexval_hexdigit by (apply N.mod_lt; lia).
  f_equal. zify. Z.to_euclidean_division_equations. lia.
Qed.

Lemma hexdigit_not_special n :
  n < 16 -> hexdigit n <> 34 /\ hexdigit n <> 92 /\ 32 <= hexdigit n.
Proof. intros Hn. unfold hexdigit. destruct (N.ltb_spec n 10); lia. Qed.

(** The surrogate pair the encoder writes for an astral character, and how
    the decoder joins it. *)
Lemma high_half c :
  0x10000 <= c -> c < 0x110000 ->
  N.lor 0xd800 (N.land (N.shiftr (c - 0x10000) 10) 0x3ff) = 0xd800 + (c - 0x10000) / 1024.
Proof.
  intros H1 H2. change 0x3ff with (N.ones 10).
  rewrite N.land_ones, N.shiftr_div_pow2. change (2 ^ 10) with 1024.
  rewrite N.mod_small by (zify; Z.to_euclidean_division_equations; lia).
  change 0xd800 with (54 * 2 ^ 10). apply lor_add.
  change (2 ^ 10) with 1024. zify; Z.to_euclidean_division_equations; lia.
Qed.

Lemma low_half c :
  N.lor 0xdc00 (N.land (c - 0x10000) 0x3ff) = 0xdc00 + (c - 0x10000) mod 1024.
Proof.
  change 0x3ff with (N.ones 10). rewrite N.land_ones. change (2 ^ 10) with 1024.
  change 0xdc00 with (55 * 2 ^ 10). apply lor_add.
  change (2 ^ 10) with 1024. apply N.mod_lt. lia.
Qed.

Lemma join_halves c :
  0x10000 <= c -> c < 0x110000 ->
  join_surrogates (0xd800 + (c - 0x10000) / 1024) (0xdc00 + (c - 0x10000) mod 1024) = c.
Proof.
  intros H1 H2. unfold join_surrogates.
  rewrite !(N.add_comm _ (_ / 1024)), !(N.add_comm _ (_ mod 1024)), !N.add_sub.
  rewrite N.shiftl_mul_pow2, lor_add by (change (2 ^ 10) with 1024; apply N.mod_lt; lia).
  change (2 ^ 10) with 1024. zify; Z.to_euclidean_division_equations; lia.
Qed.

Lemma join_surrogates_bound u u2 :
  is_high_surrogate u = true -> is_low_surrogate u2 = true ->
  0x10000 <= join_surrogates u u2 < 0x110000.
Proof.
  unfold is_high_surrogate, is_low_surrogate, join_surrogates.
  rewrite !andb_true_iff, !N.leb_le. intros [H1 H2] [H3 H4].
  rewrite N.shiftl_mul_pow2, lor_add by (change (2 ^ 10) with 1024; lia).
  change (2 ^ 10) with 1024. lia.
Qed.

(** ** [scanstring] reads back what [encode_basestring_ascii] wrote *)

Lemma scanstring_raw c r :
  c <> 34 -> c <> 92 -> 32 <= c -> scanstring (c :: r) = push c (scanstring r).
Proof.
  intros H1 H2 H3. simpl.
  destruct (N.eqb_spec c 34); [contradiction|].
  destruct (N.eqb_spec c 92); [contradiction|].
  destruct (N.ltb_spec c 32); [lia|]. reflexivity.
Qed.

Lemma scanstring_short esc char r :
  esc <> 117 -> backslash esc = Some char ->
  scanstring (92 :: esc :: r) = push char (scanstring r).
Proof.
  intros H1 H2. simpl. destruct (N.eqb_spec esc 117); [contradiction|].
  now rewrite H2.
Qed.

(** A [\uXXXX] escape that is not the first half of a pair. *)
Lemma scanstring_u uni t :
  uni < 65536 ->
  is_high_surrogate uni && starts_low_escape t = false ->
  scanstring (u_escape uni ++ t) = push uni (scanstring t).
Proof.
  intros Hu Hpair. unfold u_escape, hex4.
  cbn [app scanstring N.eqb Pos.eqb].
  rewrite decode_hex4 by assumption.
  destruct t as [|bs [|u t']]; try reflexivity.
  destruct (is_high_surrogate uni); [|reflexivity].
  cbn [andb] in *. unfold starts_low_escape in Hpair.
  destruct ((bs =? 92) && (u =? 117)); [|reflexivity].
  cbn [andb] in Hpair.
  destruct t' as [|g1 [|g2 [|g3 [|g4 t'']]]]; try discriminate.
  destruct (decode_uXXXX g1 g2 g3 g4); [|discriminate].
  now rewrite Hpair.
Qed.

(** The two escapes of an astral character. *)
Lemma scanstring_pair c t :
  0x10000 <= c -> c < 0x110000 ->
  scanstring (escape_char c ++ t) = push c (scanstring t).
Proof.
  intros H1 H2. unfold escape_char.
  repeat (match goal with |- context [N.eqb c ?k] =>
            destruct (N.eqb_spec c k); [lia|] end).
  replace ((32 <=? c) && (c <=? 126)) with false
    by (symmetry; apply andb_false_iff; right; apply N.leb_gt; lia).
  destruct (N.ltb_spec c 0x10000); [lia|].
  cbv zeta. rewrite high_half, low_half by assumption.
  set (hi := 0xd800 + (c - 0x10000) / 1024).
  set (lo := 0xdc00 + (c - 0x10000) mod 1024).
  assert (Hhi : 0xd800 <= hi <= 0xdbff)
    by (subst hi; zify; Z.to_euclidean_division_equations; lia).
  assert (Hlo : 0xdc00 <= lo <= 0xdfff)
    by (subst lo; zify; Z.to_euclidean_division_equations; lia).
  unfold u_escape, hex4. cbn [app scanstring N.eqb Pos.eqb].
  rewrite decode_hex4 by lia.
  replace (is_high_surrogate hi) with true
    by (symmetry; apply andb_true_iff; split; apply N.leb_le; lia).
  cbn [andb N.eqb Pos.eqb]. rewrite decode_hex4 by lia.
  replace (is_low_surrogate lo) with true
    by (symmetry; apply andb_true_iff; split; apply N.leb_le; lia).
  subst hi lo. now rewrite join_halves.
Qed.

Lemma scanstring_char c t :
  c < 0x110000 ->
  is_high_surrogate c && starts_low_escape t = false ->
  scanstring (escape_char c ++ t) = push c (scanstring t).
Proof.
  intros Hc Hpair.
  destruct (N.le_gt_cases 0x10000 c) as [Hbig|Hsmall];
    [now apply scanstring_pair|].
  unfold escape_char.
  repeat (match goal with |- context [N.eqb c ?k] =>
            destruct (N.eqb_spec c k);
            [subst c; now apply scanstring_short|] end).
  destruct ((32 <=? c) && (c <=? 126)) eqn:Hp.
  - apply andb_true_iff in Hp as [Hp _]. apply N.leb_le in Hp.
    now apply scanstring_raw.
  - destruct (N.ltb_spec c 0x10000); [|lia]. now apply scanstring_u.
Qed.

Lemma starts_low_escape_encode s rest :
  starts_low_escape (flat_map escape_char s ++ 34 :: rest)
  = match s with c2 :: _ => is_low_surrogate c2 | [] => false end.
Proof.
  destruct s as [|c s]; [destruct rest; reflexivity|]. cbn [flat_map].
  rewrite <- app_assoc. set (t := flat_map escape_char s ++ 34 :: rest).
  assert (Hsmall : forall k, c = k -> k < 0xdc00 -> is_low_surrogate c = false).
  { intros k -> Hk. apply andb_false_iff. left. now apply N.leb_gt. }
  unfold escape_char.
  repeat (match goal with |- context [N.eqb c ?k] =>
            destruct (N.eqb_spec c k) as [E|];
            [rewrite (Hsmall _ E) by lia; reflexivity|] end).
  destruct ((32 <=? c) && (c <=? 126)) eqn:Hp.
  - apply andb_true_iff in Hp as [_ Hp]. apply N.leb_le in Hp.
    rewrite (Hsmall c eq_refl) by lia. cbn [app starts_low_escape].
    destruct t; [reflexivity|].
    destruct (N.eqb_spec c 92); [contradiction|]. reflexivity.
  - destruct (N.ltb_spec c 0x10000).
    + unfold u_escape, hex4. cbn [app starts_low_escape N.eqb Pos.eqb andb].
      now rewrite decode_hex4.
    + cbv zeta. unfold u_escape at 1. unfold hex4 at 1.
      cbn [app starts_low_escape N.eqb Pos.eqb andb].
      assert (Hl : is_low_surrogate c = false).
      { apply andb_false_iff. right. apply N.leb_gt. lia. }
      rewrite Hl.
      set (s1 := N.lor 0xd800 (N.land (N.shiftr (c - 0x10000) 10) 0x3ff)).
      assert (Hs1 : s1 < 0xdc00).
      { subst s1. change 0x3ff with (N.ones 10).
        change 0xd800 with (54 * 2 ^ 10).
        rewrite lor_add; rewrite N.land_ones; change (2 ^ 10) with 1024.
        - pose proof (N.mod_lt (N.shiftr (c - 65536) 10) 1024). lia.
        - apply N.mod_lt. lia. }
      rewrite decode_hex4 by lia.
      apply andb_false_iff. left. now apply N.leb_gt.
Qed.

Lemma scanstring_encode s rest :
  str_ok s = true ->
  scanstring (flat_map escape_char s ++ 34 :: rest) = Some (s, rest).
Proof.
  induction s as [|c s IH]; intros Hok; [reflexivity|].
  cbn [flat_map str_ok] in *. rewrite <- app_assoc.
  apply andb_true_iff in Hok as [Hok Hs].
  apply andb_true_iff in Hok as [Hc Hpair].
  apply N.ltb_lt in Hc. apply negb_true_iff in Hpair.
  rewrite scanstring_char, IH; auto.
  now rewrite starts_low_escape_encode.
Qed.

Lemma scanstring_encoded s rest :
  str_ok s = true ->
  exists t, encode_basestring_ascii s ++ rest = 34 :: t
            /\ scanstring t = Some (s, rest).
Proof.
  intros Hok. exists (flat_map escape_char s ++ 34 :: rest). split.
  - unfold encode_basestring_ascii. cbn [app]. now rewrite <- app_assoc.
  - now apply scanstring_encode.
Qed.

(** ** Numbers: the scanner on a lexeme followed by more text *)

Lemma span_digits_split s d r : span_digits s = (d, r) -> s = d ++ r.
Proof.
  revert d r. induction s as [|c s IH]; intros d r; simpl.
  - now intros [= <- <-].
  - destruct (is_digit c).
    + destruct (span_digits s) as [d' r']. intros [= <- <-].
      now rewrite (IH d' r' eq_refl).
    + now intros [= <- <-].
Qed.

Lemma span_digits_more s d r rest :
  span_digits s = (d, r) ->
  match rest with [] => True | c :: _ => is_digit c = false end ->
  span_digits (s ++ rest) = (d, r ++ rest).
Proof.
  revert d r. induction s as [|c s IH]; intros d r; simpl.
  - intros [= <- <-] Hr. destruct rest as [|c rest]; [reflexivity|].
    simpl. now rewrite Hr.
  - destruct (is_digit c).
    + destruct (span_digits s) as [d' r']. intros [= <- <-] Hr.
      now rewrite (IH d' r' eq_refl Hr).
    + now intros [= <- <-].
Qed.

Lemma ends_token_head rest :
  ends_token rest = true ->
  match rest with
  | [] => True
  | c :: _ => is_digit c = false /\ c <> 46 /\ c <> 101 /\ c <> 69
              /\ c <> 45 /\ c <> 43
  end.
Proof.
  destruct rest as [|c rest]; [trivial|]. simpl.
  intros Hc. apply orb_true_iff in Hc as [Hc|Hc]; apply N.eqb_eq in Hc; subst c;
    repeat split; discriminate.
Qed.

Lemma ends_token_digit rest :
  ends_token rest = true ->
  match rest with [] => True | c :: _ => is_digit c = false end.
Proof.
  intros Hr. apply ends_token_head in Hr. destruct rest; [trivial|]. tauto.
Qed.

Lemma match_natural_more s i r rest :
  match_natural s = Some (i, r) ->
  ends_token rest = true ->
  match_natural (s ++ rest) = Some (i, r ++ rest).
Proof.
  intros Hs Hr. pose proof (ends_token_digit rest Hr) as Hd.
  unfold match_natural in *. destruct s as [|c s]; [discriminate|]. cbn [app].
  destruct (c =? 48); [now injection Hs as <- <-|].
  destruct (is_digit c); [|discriminate].
  destruct (span_digits s) as [d r'] eqn:E. injection Hs as <- <-.
  now rewrite (span_digits_more _ _ _ _ E Hd).
Qed.

Lemma match_integer_more s i r rest :
  match_integer s = Some (i, r) ->
  ends_token rest = true ->
  match_integer (s ++ rest) = Some (i, r ++ rest).
Proof.
  intros Hs Hr. unfold match_integer in *.
  destruct s as [|c s]; [discriminate|]. cbn [app].
  destruct (c =? 45).
  - destruct (match_natural s) as [[d r']|] eqn:E; [|discriminate].
    injection Hs as <- <-. now rewrite (match_natural_more _ _ _ _ E Hr).
  - now apply (match_natural_more (c :: s)).
Qed.

Lemma match_frac_more s f r rest :
  match_frac s = (f, r) ->
  ends_token rest = true ->
  match_frac (s ++ rest) = (f, r ++ rest).
Proof.
  intros Hs Hr. pose proof (ends_token_head rest Hr) as Hh.
  pose proof (ends_token_digit rest Hr) as Hd.
  unfold match_frac in *. destruct s as [|c s].
  - injection Hs as <- <-. destruct rest as [|c rest]; [reflexivity|].
    cbn [app]. destruct (N.eqb_spec c 46); [tauto|reflexivity].
  - cbn [app]. destruct (c =? 46); [|now injection Hs as <- <-].
    destruct (span_digits s) as [d r'] eqn:E.
    rewrite (span_digits_more _ _ _ _ E Hd).
    destruct d; now injection Hs as <- <-.
Qed.

Lemma match_exp_more s e r rest :
  match_exp s = (e, r) ->
  ends_token rest = true ->
  match_exp (s ++ rest) = (e, r ++ rest).
Proof.
  intros Hs Hr. pose proof (ends_token_head rest Hr) as Hh.
  pose proof (ends_token_digit rest Hr) as Hd.
  unfold match_exp in *. destruct s as [|c s].
  - injection Hs as <- <-. destruct rest as [|c rest]; [reflexivity|].
    cbn [app]. destruct (N.eqb_spec c 101); [tauto|].
    destruct (N.eqb_spec c 69); [tauto|reflexivity].
  - cbn [app]. destruct ((c =? 101) || (c =? 69)); [|now injection Hs as <- <-].
    destruct s as [|c1 s].
    + cbn [app span_digits] in *. injection Hs as <- <-.
      destruct rest as [|c1 rest]; [reflexivity|].
      destruct (N.eqb_spec c1 45); [tauto|].
      destruct (N.eqb_spec c1 43); [tauto|]. cbn [orb].
      cbn [span_digits]. now destruct Hh as [-> _].
    + cbn [app]. destruct ((c1 =? 45) || (c1 =? 43)).
      * destruct (span_digits s) as [d r'] eqn:E.
        rewrite (span_digits_more _ _ _ _ E Hd).
        destruct d; now injection Hs as <- <-.
      * destruct (span_digits (c1 :: s)) as [d r'] eqn:E.
        change (c1 :: s ++ rest) with ((c1 :: s) ++ rest).
        rewrite (span_digits_more _ _ _ _ E Hd).
        destruct d; now injection Hs as <- <-.
Qed.

Lemma match_number_more s i f e r rest :
  match_number s = Some (i, f, e, r) ->
  ends_token rest = true ->
  match_number (s ++ rest) = Some (i, f, e, r ++ rest).
Proof.
  unfold match_number. intros Hs Hr.
  destruct (match_integer s) as [[i0 r0]|] eqn:Ei; [|discriminate].
  destruct (match_frac r0) as [f0 r1] eqn:Ef.
  destruct (match_exp r1) as [e0 r2] eqn:Ee.
  injection Hs as <- <- <- <-.
  rewrite (match_integer_more _ _ _ _ Ei Hr), (match_frac_more _ _ _ _ Ef Hr),
    (match_exp_more _ _ _ _ Ee Hr). reflexivity.
Qed.

Lemma match_natural_split s i r : match_natural s = Some (i, r) -> s = i ++ r.
Proof.
  unfold match_natural. destruct s as [|c s]; [discriminate|].
  destruct (N.eqb_spec c 48) as [->|_]; [now intros [= <- <-]|].
  destruct (is_digit c); [|discriminate].
  destruct (span_digits s) as [d r'] eqn:E. intros [= <- <-].
  now rewrite (span_digits_split _ _ _ E).
Qed.

Lemma match_integer_split s i r : match_integer s = Some (i, r) -> s = i ++ r.
Proof.
  unfold match_integer. destruct s as [|c s]; [discriminate|].
  destruct (N.eqb_spec c 45) as [->|_].
  - destruct (match_natural s) as [[d r']|] eqn:E; [|discriminate].
    intros [= <- <-]. now rewrite (match_natural_split _ _ _ E).
  - apply match_natural_split.
Qed.

Lemma match_frac_split s f r : match_frac s = (f, r) -> s = f ++ r.
Proof.
  unfold match_frac. destruct s as [|c s]; [now intros [= <- <-]|].
  destruct (N.eqb_spec c 46) as [->|_]; [|now intros [= <- <-]].
  destruct (span_digits s) as [d r'] eqn:E. apply span_digits_split in E.
  destruct d; intros [= <- <-]; now subst s.
Qed.

Lemma match_exp_split s e r : match_exp s = (e, r) -> s = e ++ r.
Proof.
  unfold match_exp. destruct s as [|c s]; [now intros [= <- <-]|].
  destruct ((c =? 101) || (c =? 69)); [|now intros [= <- <-]].
  destruct s as [|c1 s]; [now intros [= <- <-]|].
  destruct ((c1 =? 45) || (c1 =? 43)).
  - destruct (span_digits s) as [d r'] eqn:E. apply span_digits_split in E.
    destruct d; intros [= <- <-]; now subst s.
  - destruct (span_digits (c1 :: s)) as [d r'] eqn:E. apply span_digits_split in E.
    destruct d; intros [= <- <-]; [reflexivity|]. cbn [app]. now rewrite E.
Qed.

Lemma match_number_split s i f e r :
  match_number s = Some (i, f, e, r) -> s = i ++ f ++ e ++ r.
Proof.
  unfold match_number.
  destruct (match_integer s) as [[i0 r0]|] eqn:Ei; [|discriminate].
  destruct (match_frac r0) as [f0 r1] eqn:Ef.
  destruct (match_exp r1) as [e0 r2] eqn:Ee.
  intros [= <- <- <- <-].
  apply match_integer_split in Ei. apply match_frac_split in Ef.
  apply match_exp_split in Ee. now subst.
Qed.

(** A number starts with a minus sign or a digit. *)
Lemma match_number_head s i f e r :
  match_number s = Some (i, f, e, r) ->
  exists c t, s = c :: t /\ (c = 45 \/ is_digit c = true).
Proof.
  unfold match_number, match_integer, match_natural.
  destruct s as [|c s]; [discriminate|]. intros Hm. exists c, s. split; [reflexivity|].
  destruct (N.eqb_spec c 45); [now left|right].
  destruct (N.eqb_spec c 48) as [->|_]; [reflexivity|].
  destruct (is_digit c); [reflexivity|discriminate].
Qed.

(** ** [scan_once] on the leaves of the encoder's output *)

Ltac eval_py :=
  repeat match goal with
  | |- context [py ?s] =>
      let v := eval vm_compute in (py s) in change (py s) with v
  end.

Lemma strip_prefix_ne k p c t : c <> k -> strip_prefix (k :: p) (c :: t) = None.
Proof. intros Hne. cbn [strip_prefix]. destruct (N.eqb_spec k c); congruence. Qed.

Lemma strip_prefix_app p rest : strip_prefix p (p ++ rest) = Some rest.
Proof. induction p as [|a p IH]; [reflexivity|]. cbn. now rewrite N.eqb_refl. Qed.

Section ScanLeaves.
Context `{FloatConv}.
Variable pc : pystr -> option spec_float.

Lemma scan_once_number fuel s i f e r :
  match_number s = Some (i, f, e, r) ->
  scan_once pc (S fuel) s
  = Some (match f, e with
          | [], [] => PyInt (int_of_str i)
          | _, _ => PyFloat (float_of_str (i ++ f ++ e))
          end, r).
Proof.
  intros Hm. destruct (match_number_head _ _ _ _ _ Hm) as (c & t & -> & Hc).
  assert (Hrange : c = 45 \/ 48 <= c <= 57).
  { destruct Hc as [Hc|Hc]; [now left|right].
    apply andb_true_iff in Hc as [H1 H2]. apply N.leb_le in H1, H2. lia. }
  cbn [scan_once].
  repeat (match goal with |- context [N.eqb c ?k] =>
            destruct (N.eqb_spec c k); [lia|] end).
  eval_py. rewrite !strip_prefix_ne by lia. rewrite Hm.
  destruct f, e; reflexivity.
Qed.

Lemma scan_once_int fuel z rest :
  ends_token rest = true ->
  scan_once pc (S fuel) (int_repr z ++ rest) = Some (PyInt z, rest).
Proof.
  intros Hr.
  assert (Hm : match_number (int_repr z ++ rest) = Some (int_repr z, [], [], rest)).
  { unfold match_number.
    rewrite (match_integer_repr z rest (ends_token_digit rest Hr)).
    pose proof (match_frac_more [] [] [] rest eq_refl Hr) as Hf.
    pose proof (match_exp_more [] [] [] rest eq_refl Hr) as He.
    cbn [app] in Hf, He. now rewrite Hf, He. }
  rewrite (scan_once_number _ _ _ _ _ _ Hm). now rewrite int_of_str_repr.
Qed.

Lemma scan_once_float_lexeme fuel lex rest :
  float_lexeme lex = true -> ends_token rest = true ->
  scan_once pc (S fuel) (lex ++ rest) = Some (PyFloat (float_of_str lex), rest).
Proof.
  intros Hl Hr. unfold float_lexeme in Hl.
  destruct (match_number lex) as [[[[i f] e] r]|] eqn:Hm; [|discriminate].
  assert (r = [] /\ (f <> [] \/ e <> [])) as [-> Hfe].
  { destruct f, e, r; try discriminate; split; auto; now right + left. }
  pose proof (match_number_split _ _ _ _ _ Hm) as Hs. rewrite app_nil_r in Hs.
  rewrite (scan_once_number _ _ _ _ _ _ (match_number_more _ _ _ _ _ rest Hm Hr)).
  cbn [app]. rewrite <- Hs.
  destruct f, e; try reflexivity. destruct Hfe; congruence.
Qed.

Lemma floatstr_cases f :
  floatstr f = match f with
               | S754_nan => py "NaN"
               | S754_infinity false => py "Infinity"
               | S754_infinity true => py "-Infinity"
               | _ => float_repr f
               end.
Proof.
  unfold floatstr, SFeqb. destruct f as [s|[|]| |s m e]; cbn [SFcompare negb]; try reflexivity.
  - rewrite Z.compare_refl. 
    assert (Hm : Pos.compare_cont Eq m m = Eq) by apply Pos.compare_cont_refl.
    destruct s; rewrite Hm; reflexivity.
Qed.

Lemma scan_once_float fuel f rest :
  float_ok pc f -> ends_token rest = true ->
  scan_once pc (S fuel) (floatstr f ++ rest) = Some (PyFloat f, rest).
Proof.
  intros Hf Hr. rewrite floatstr_cases.
  destruct f as [s|[|]| |s m e]; cbn [float_ok] in Hf.
  - destruct Hf as [Hl Hrt]. rewrite scan_once_float_lexeme by assumption. now rewrite Hrt.
  - cbn in Hf |- *. unfold constant. cbn. now rewrite Hf.
  - cbn in Hf |- *. unfold constant. cbn. now rewrite Hf.
  - cbn in Hf |- *. unfold constant. cbn. now rewrite Hf.
  - destruct Hf as [Hl Hrt]. rewrite scan_once_float_lexeme by assumption. now rewrite Hrt.
Qed.

Lemma scan_once_str fuel s rest :
  str_ok s = true ->
  scan_once pc (S fuel) (encode_basestring_ascii s ++ rest) = Some (PyStr s, rest).
Proof.
  intros Hs. destruct (scanstring_encoded s rest Hs) as (t & -> & Ht).
  cbn [scan_once N.eqb Pos.eqb]. now rewrite Ht.
Qed.
End ScanLeaves.

(** ** Objects: induction, well-formedness, the first character *)

Lemma pyobj_ind' (P : pyobj -> Prop) :
  P PyNone -> (forall b, P (PyBool b)) -> (forall z, P (PyInt z)) ->
  (forall f, P (PyFloat f)) -> (forall s, P (PyStr s)) ->
  (forall l, Forall P l -> P (PyList l)) ->
  (forall d, Forall (fun kv => P (snd kv)) d -> P (PyDict d)) ->
  forall o, P o.
Proof.
  intros HN HB HZ HF HS HL HD. fix IH 1.
  intros [ |b|z|f|s|l|d];
    [exact HN | apply HB | apply HZ | apply HF | apply HS | | ].
  - apply HL. induction l as [|x l IHl]; constructor; [apply IH | exact IHl].
  - apply HD. induction d as [|[k v] d IHd]; constructor; [apply IH | exact IHd].
Qed.

Lemma wf_list `{FloatConv} pc l : wf pc (PyList l) <-> Forall (wf pc) l.
Proof.
  cbn [wf]. induction l as [|x l IH]; cbn [fold_right].
  - split; auto.
  - rewrite IH. split; [intros [? ?]; now constructor | now inversion 1].
Qed.

Lemma wf_dict `{FloatConv} pc d :
  wf pc (PyDict d)
  <-> NoDup (map fst d)
      /\ Forall (fun kv => str_ok (fst kv) = true /\ wf pc (snd kv)) d.
Proof.
  cbn [wf]. apply and_iff_compat_l.
  induction d as [|kv d IH]; cbn [fold_right].
  - split; auto.
  - rewrite IH. split; [intros [? ?]; now constructor | now inversion 1].
Qed.

Lemma int_repr_head z : exists c r, int_repr z = c :: r /\ (c = 45 \/ is_digit c = true).
Proof.
  unfold int_repr. destruct z as [|p|p]; simpl Z.to_int.
  - exists 48, []. auto.
  - destruct (pos_to_uint_head p) as (c & r & E & Hd & _). exists c, r. auto.
  - eexists _, _. split; [reflexivity|]. now left.
Qed.

Lemma number_head_starts c r :
  c = 45 \/ is_digit c = true -> starts_value (c :: r).
Proof.
  intros Hc. exists c, r. split; [reflexivity|].
  assert (Hrange : c = 45 \/ 48 <= c <= 57).
  { destruct Hc as [Hc|Hc]; [now left|right].
    apply andb_true_iff in Hc as [H1 H2]. apply N.leb_le in H1, H2. lia. }
  unfold is_ws. repeat split; try lia.
  repeat (match goal with |- context [N.eqb c ?k] =>
            destruct (N.eqb_spec c k); [lia|] end). reflexivity.
Qed.

Lemma iterencode_starts `{FloatConv} pc indent level o :
  wf pc o -> starts_value (iterencode indent level o).
Proof.
  assert (Hlit : forall c r, is_ws c = false -> c <> 93 -> c <> 125 ->
                             c <> 0xfeff -> starts_value (c :: r)).
  { intros c r ? ? ? ?. now exists c, r. }
  destruct o as [ |[|]|z|f|s|[|x l]|[|kv d]]; intros Hwf; cbn [iterencode];
    try (apply Hlit; [reflexivity | discriminate | discriminate | discriminate]).
  - destruct (int_repr_head z) as (c & r & -> & Hc). now apply number_head_starts.
  - rewrite floatstr_cases.
    destruct f as [s|[|]| |s m e]; cbn [wf float_ok] in Hwf;
      try (apply Hlit; [reflexivity | discriminate | discriminate | discriminate]).
    all: destruct Hwf as [Hl _]; unfold float_lexeme in Hl.
    all: destruct (match_number (float_repr _)) as [[[[i fr] e'] r]|] eqn:Hm;
      [|discriminate].
    all: destruct (match_number_head _ _ _ _ _ Hm) as (c & t & -> & Hc).
    all: now apply number_head_starts.
Qed.

Lemma skip_ws_starts t : starts_value t -> skip_ws t = t.
Proof. intros (c & r & -> & Hc & _). cbn. now rewrite Hc. Qed.

Lemma skip_ws_spaces n t : skip_ws (spaces n ++ t) = skip_ws t.
Proof. induction n; [reflexivity|]. exact IHn. Qed.

Lemma skip_ws_newline_indent indent level t :
  skip_ws (newline_indent indent level ++ t) = skip_ws t.
Proof. unfold newline_indent. cbn. apply skip_ws_spaces. Qed.

Lemma ends_token_newline_indent indent level t :
  ends_token (newline_indent indent level ++ t) = true.
Proof. reflexivity. Qed.

(** [dict(pairs)] of pairs with distinct keys is the list of pairs. *)
Lemma dict_set_fresh d k v :
  k ∉ map fst d -> dict_set d k v = d ++ [(k, v)].
Proof.
  induction d as [|[k' v'] d IH]; intros Hk; [reflexivity|].
  cbn [dict_set map fst] in *. apply not_elem_of_cons in Hk as [Hne Hk].
  destruct (decide (k = k')); [contradiction|]. now rewrite IH.
Qed.

Lemma dict_of_pairs_nodup d : NoDup (map fst d) -> dict_of_pairs d = d.
Proof.
  unfold dict_of_pairs.
  enough (Hgen : forall acc, NoDup (map fst (acc ++ d)) ->
            fold_left (fun d kv => dict_set d (fst kv) (snd kv)) d acc = acc ++ d)
    by (intros Hnd; now apply (Hgen [])).
  induction d as [|[k v] d IH]; intros acc Hnd; cbn [fold_left].
  - now rewrite app_nil_r.
  - rewrite dict_set_fresh.
    + rewrite IH; rewrite <- app_assoc; [reflexivity | exact Hnd].
    + rewrite map_app in Hnd. apply NoDup_app in Hnd as (_ & Hdis & _).
      intros Hin. apply (Hdis k Hin). cbn. left.
Qed.

(** ** The decoder reads back what the encoder wrote *)

Lemma join_cons2 sep p q ps : join sep (p :: q :: ps) = p ++ sep ++ join sep (q :: ps).
Proof. reflexivity. Qed.

Lemma starts_value_app t u : starts_value t -> starts_value (t ++ u).
Proof. intros (c & r & -> & Hc). now exists c, (r ++ u). Qed.

Ltac lens_in H := repeat first [rewrite length_app in H | progress cbn [length] in H].
Ltac lens := repeat first [rewrite length_app | progress cbn [length]].

Section RoundTrip.
Context `{FloatConv}.
Variable pc : pystr -> option spec_float.

Lemma JSONArray_loop_items f indent level closing rest l :
  forall n x,
  Forall (reads_back pc f indent level) (x :: l) ->
  Forall (wf pc) (x :: l) ->
  let T := join (44 :: newline_indent indent level)
             (map (iterencode indent level) (x :: l))
           ++ newline_indent indent closing ++ 93 :: rest in
  (length T < n)%nat -> (length T < f)%nat ->
  JSONArray_loop (scan_once pc f) n T = Some (x :: l, rest).
Proof.
  induction l as [|y l IH]; intros n x Hrb Hwf T Hn Hf; subst T;
    (destruct n as [|n]; [inversion Hn|]);
    apply Forall_cons in Hrb as [Hx Hrb]; apply Forall_cons in Hwf as [Hwx Hwf].
  - cbn [map join] in *. cbn [JSONArray_loop].
    rewrite Hx by (auto using ends_token_newline_indent).
    rewrite skip_ws_newline_indent. reflexivity.
  - cbn [map] in *. rewrite join_cons2 in *. rewrite <- !app_assoc in *.
    cbn [JSONArray_loop]. rewrite Hx by auto. cbn [app].
    cbn [skip_ws is_ws N.eqb Pos.eqb orb]. rewrite skip_ws_newline_indent.
    set (T := join _ (iterencode indent level y :: _) ++ _) in *.
    assert (HT : starts_value T).
    { subst T. destruct l; cbn [map]; [|rewrite join_cons2];
        repeat apply starts_value_app;
        apply (iterencode_starts pc); now inversion Hwf. }
    rewrite (skip_ws_starts _ HT).
    rewrite !length_app in Hn, Hf. cbn [length] in Hn, Hf.
    subst T. rewrite (IH n y); auto; lia.
Qed.

Lemma JSONObject_loop_items f indent level closing rest d :
  forall n k v,
  Forall (fun kv => reads_back pc f indent level (snd kv)) ((k, v) :: d) ->
  Forall (fun kv => str_ok (fst kv) = true /\ wf pc (snd kv)) ((k, v) :: d) ->
  let T := join (44 :: newline_indent indent level)
             (map (fun kv => encode_basestring_ascii (fst kv) ++ py ": "
                             ++ iterencode indent level (snd kv)) ((k, v) :: d))
           ++ newline_indent indent closing ++ 125 :: rest in
  (length T < n)%nat -> (length T < f)%nat ->
  JSONObject_loop (scan_once pc f) n (tail T) = Some ((k, v) :: d, rest).
Proof.
  change (py ": ") with [58; 32].
  induction d as [|[k' v'] d IH]; intros n k v Hrb Hwf T Hn Hf; subst T;
    (destruct n as [|n]; [inversion Hn|]);
    apply Forall_cons in Hrb as [Hv Hrb]; apply Forall_cons in Hwf as [[Hk Hwv] Hwf];
    cbn [fst snd] in *.
  - cbn [map join fst snd] in *. unfold encode_basestring_ascii in *.
    rewrite <- !app_assoc in *. cbn [app tail] in *. rewrite <- !app_assoc in *.
    cbn [app] in *. cbn [JSONObject_loop].
    rewrite scanstring_encode by assumption.
    cbn [skip_ws is_ws N.eqb Pos.eqb orb].
    rewrite (skip_ws_starts (iterencode _ _ _ ++ _))
      by (apply starts_value_app, (iterencode_starts pc); assumption).
    lens_in Hf.
    rewrite Hv; [| apply ends_token_newline_indent | lens; lia].
    rewrite skip_ws_newline_indent. reflexivity.
  - cbn [map fst snd] in *. rewrite join_cons2 in *.
    unfold encode_basestring_ascii at 1.
    unfold encode_basestring_ascii at 1 in Hn.
    unfold encode_basestring_ascii at 1 in Hf.
    rewrite <- !app_assoc in *. cbn [app tail] in *. rewrite <- !app_assoc in *.
    cbn [app] in *. cbn [JSONObject_loop].
    rewrite scanstring_encode by assumption.
    cbn [skip_ws is_ws N.eqb Pos.eqb orb].
    rewrite (skip_ws_starts (iterencode _ _ _ ++ _))
      by (apply starts_value_app, (iterencode_starts pc); assumption).
    lens_in Hf. lens_in Hn.
    rewrite Hv; [| reflexivity | lens; lia].
    cbn [skip_ws is_ws N.eqb Pos.eqb orb]. rewrite skip_ws_newline_indent.
    set (T := join _ (_ :: _) ++ _) in *.
    assert (exists t, T = 34 :: t) as [t HT].
    { subst T. destruct d; cbn [map]; [|rewrite join_cons2];
        unfold encode_basestring_ascii; cbn [app]; eauto. }
    specialize (IH n k' v' Hrb Hwf). cbv zeta in IH. fold T in IH.
    rewrite HT in IH |- *. cbn [tail] in IH.
    cbn [skip_ws is_ws N.eqb Pos.eqb orb].
    rewrite IH; [reflexivity | |]; rewrite <- HT; subst T; lens; lia.
Qed.

(** Whatever the indent and the nesting level, the scanner reads the
    encoding of a well-formed object back, given fuel beyond the length of
    the text. *)
Theorem scan_once_iterencode o :
  forall indent level f, wf pc o -> reads_back pc f indent level o.
Proof.
  induction o as [ |b|z|fl|s|l IHl|d IHd] using pyobj_ind';
    intros indent level f Hwf rest Hr Hlen;
    (destruct f as [|f]; [inversion Hlen|]).
  - reflexivity.
  - destruct b; reflexivity.
  - now apply scan_once_int.
  - now apply scan_once_float.
  - now apply scan_once_str.
  - apply wf_list in Hwf. destruct l as [|x l]; [reflexivity|].
    cbn [iterencode] in *. change (py "[") with [91] in *. change (py "]") with [93] in *.
    change (py ",") with [44] in *.
    cbn zeta in *. rewrite <- !app_assoc in *. cbn [app] in *.
    cbn [scan_once N.eqb Pos.eqb]. unfold JSONArray.
    rewrite skip_ws_newline_indent.
    set (T := join _ _ ++ _) in *.
    assert (HT : starts_value T).
    { subst T. destruct l; cbn [map]; [|rewrite join_cons2];
        repeat apply starts_value_app;
        apply (iterencode_starts pc); now inversion Hwf. }
    rewrite (skip_ws_starts _ HT). destruct HT as (c & r & HT & _ & Hc & _).
    rewrite HT. destruct (N.eqb_spec c 93); [contradiction|]. rewrite <- HT.
    lens_in Hlen. subst T.
    rewrite JSONArray_loop_items; auto; try lia.
    rewrite Forall_forall in IHl, Hwf |- *. intros a Ha. apply IHl; auto.
  - apply wf_dict in Hwf as [Hnd Hwf]. destruct d as [|[k v] d]; [reflexivity|].
    cbn [iterencode] in *. change (py "{") with [123] in *. change (py "}") with [125] in *.
    change (py ",") with [44] in *.
    cbn zeta in *. rewrite <- !app_assoc in *. cbn [app] in *.
    cbn [scan_once N.eqb Pos.eqb]. unfold JSONObject.
    rewrite skip_ws_newline_indent.
    set (T := join _ _ ++ _) in *.
    assert (exists t, T = 34 :: t) as [t HT].
    { subst T. destruct d; cbn [map]; [|rewrite join_cons2];
        unfold encode_basestring_ascii; cbn [app]; eauto. }
    pose proof (JSONObject_loop_items f indent (S level) level rest d f k v) as Hloop.
    cbv zeta in Hloop. fold T in Hloop. rewrite HT in Hloop |- *. cbn [tail] in Hloop.
    cbn [skip_ws is_ws N.eqb Pos.eqb orb].
    rewrite Hloop.
    + now rewrite dict_of_pairs_nodup.
    + rewrite Forall_forall in IHd, Hwf |- *. intros kv Hin. apply IHd; auto.
      now apply Hwf.
    + exact Hwf.
    + rewrite <- HT. lens_in Hlen. lia.
    + rewrite <- HT. lens_in Hlen. lia.
Qed.

(** [json.loads(json.dumps(o, indent=n)) == o] for a well-formed object. *)
Theorem loads_dumps indent o :
  wf pc o -> json_loads_with pc (json_dumps indent o) = Some o.
Proof.
  intros Hwf. unfold json_loads_with, json_dumps.
  pose proof (iterencode_starts pc indent 0 o Hwf) as Hs.
  rewrite (skip_ws_starts _ Hs).
  destruct Hs as (c & r & Hs & _ & _ & _ & Hbom).
  rewrite Hs. destruct (N.eqb_spec c 0xfeff); [contradiction|]. rewrite <- Hs.
  pose proof (scan_once_iterencode o indent 0
                (S (length (iterencode indent 0 o))) Hwf [] eq_refl) as Hrb.
  rewrite app_nil_r in Hrb. rewrite Hrb by lia. reflexivity.
Qed.
End RoundTrip.

(** ** The decoder on the encoding of any object *)

Lemma high_half_any n :
  N.lor 0xd800 (N.land (N.shiftr n 10) 0x3ff) = 0xd800 + (n / 1024) mod 1024.
Proof.
  change 0x3ff with (N.ones 10).
  rewrite N.land_ones, N.shiftr_div_pow2. change (2 ^ 10) with 1024.
  change 0xd800 with (54 * 2 ^ 10). apply lor_add.
  change (2 ^ 10) with 1024. apply N.mod_lt. lia.
Qed.

Lemma astral_halves_surrogates c :
  is_high_surrogate (fst (astral_halves c)) = true
  /\ is_low_surrogate (snd (astral_halves c)) = true.
Proof.
  unfold astral_halves. cbv zeta. cbn [fst snd].
  rewrite high_half_any, low_half.
  assert (H1 : (c - 0x10000) / 1024 mod 1024 < 1024) by (apply N.mod_lt; lia).
  assert (H2 : (c - 0x10000) mod 1024 < 1024) by (apply N.mod_lt; lia).
  revert H1 H2. generalize ((c - 0x10000) / 1024 mod 1024) ((c - 0x10000) mod 1024).
  intros x y H1 H2.
  unfold is_high_surrogate, is_low_surrogate.
  split; apply andb_true_iff; split; apply N.leb_le; lia.
Qed.

Lemma astral_halves_join c :
  0x10000 <= c -> c < 0x110000 ->
  (let '(s1, s2) := astral_halves c in join_surrogates s1 s2) = c.
Proof.
  intros H1 H2. unfold astral_halves. cbv zeta.
  rewrite high_half, low_half by assumption. now apply join_halves.
Qed.

(** The escapes of a high and of a low surrogate, one after the other. *)
Lemma scanstring_join hi lo t :
  is_high_surrogate hi = true -> is_low_surrogate lo = true ->
  scanstring (u_escape hi ++ u_escape lo ++ t)
  = push (join_surrogates hi lo) (scanstring t).
Proof.
  intros Hhi Hlo.
  assert (Hh : hi < 65536).
  { unfold is_high_surrogate in Hhi. apply andb_true_iff in Hhi as [_ Hhi].
    apply N.leb_le in Hhi. lia. }
  assert (Hl : lo < 65536).
  { unfold is_low_surrogate in Hlo. apply andb_true_iff in Hlo as [_ Hlo].
    apply N.leb_le in Hlo. lia. }
  unfold u_escape, hex4. cbn [app scanstring N.eqb Pos.eqb].
  rewrite decode_hex4 by assumption. rewrite Hhi.
  cbn [andb N.eqb Pos.eqb]. rewrite decode_hex4 by assumption.
  now rewrite Hlo.
Qed.

Lemma escape_char_surrogate c :
  is_high_surrogate c = true \/ is_low_surrogate c = true ->
  escape_char c = u_escape c.
Proof.
  intros Hc.
  assert (Hr : 0xd800 <= c <= 0xdfff).
  { unfold is_high_surrogate, is_low_surrogate in Hc.
    destruct Hc as [Hc|Hc]; apply andb_true_iff in Hc as [H1 H2];
      apply N.leb_le in H1, H2; lia. }
  unfold escape_char.
  repeat (match goal with |- context [N.eqb c ?k] =>
            destruct (N.eqb_spec c k); [lia|] end).
  replace ((32 <=? c) && (c <=? 126)) with false
    by (symmetry; apply andb_false_iff; right; apply N.leb_gt; lia).
  destruct (N.ltb_spec c 0x10000); [reflexivity|lia].
Qed.

Lemma escape_char_astral c :
  0x10000 <= c ->
  escape_char c = u_escape (fst (astral_halves c)) ++ u_escape (snd (astral_halves c)).
Proof.
  intros Hc. unfold escape_char.
  repeat (match goal with |- context [N.eqb c ?k] =>
            destruct (N.eqb_spec c k); [lia|] end).
  replace ((32 <=? c) && (c <=? 126)) with false
    by (symmetry; apply andb_false_iff; right; apply N.leb_gt; lia).
  destruct (N.ltb_spec c 0x10000); [lia|reflexivity].
Qed.

Lemma scanstring_canon_aux n :
  forall s rest, (length s <= n)%nat ->
  scanstring (flat_map escape_char s ++ 34 :: rest) = Some (canon_str s, rest).
Proof.
  induction n as [|n IH]; intros s rest Hlen.
  { destruct s; [reflexivity | cbn in Hlen; lia]. }
  destruct s as [|c s]; [reflexivity|]. cbn [length] in Hlen.
  cbn [flat_map canon_str]. rewrite <- app_assoc.
  destruct (N.leb_spec 0x10000 c) as [Hbig|Hsmall].
  - rewrite (escape_char_astral c Hbig), <- app_assoc.
    destruct (astral_halves_surrogates c) as [Hh Hl].
    rewrite (scanstring_join _ _ _ Hh Hl), IH by lia.
    now destruct (astral_halves c).
  - destruct (is_high_surrogate c) eqn:Ehi.
    + destruct s as [|c2 s2].
      * rewrite scanstring_char; [reflexivity | lia |].
        rewrite (starts_low_escape_encode [] rest). apply andb_false_r.
      * destruct (is_low_surrogate c2) eqn:Elo.
        -- cbn [flat_map]. rewrite <- app_assoc.
           rewrite (escape_char_surrogate c), (escape_char_surrogate c2) by auto.
           cbn [length] in Hlen.
           rewrite (scanstring_join _ _ _ Ehi Elo), IH by lia. reflexivity.
        -- rewrite scanstring_char, IH; [reflexivity | lia | lia |].
           rewrite (starts_low_escape_encode (c2 :: s2) rest), Elo. apply andb_false_r.
    + rewrite scanstring_char, IH; [reflexivity | lia | lia | now rewrite Ehi].
Qed.

Lemma scanstring_canon s rest :
  scanstring (flat_map escape_char s ++ 34 :: rest) = Some (canon_str s, rest).
Proof. now apply (scanstring_canon_aux (length s)). Qed.

Lemma canon_str_ok s : str_ok s = true -> canon_str s = s.
Proof.
  induction s as [|c s IH]; [reflexivity|]. cbn [str_ok canon_str].
  intros Hok. apply andb_true_iff in Hok as [Hok Hs].
  apply andb_true_iff in Hok as [Hc Hpair].
  apply N.ltb_lt in Hc. apply negb_true_iff in Hpair. rewrite (IH Hs).
  destruct (N.leb_spec 0x10000 c) as [Hbig|Hsmall].
  - now rewrite astral_halves_join.
  - destruct (is_high_surrogate c); [|reflexivity]. cbn [andb] in Hpair.
    destruct s as [|c2 s2]; [reflexivity|]. now rewrite Hpair.
Qed.

Lemma readable_list `{FloatConv} pc l : readable pc (PyList l) <-> Forall (readable pc) l.
Proof.
  cbn [readable]. induction l as [|x l IH]; cbn [fold_right].
  - split; auto.
  - rewrite IH. split; [intros [? ?]; now constructor | now inversion 1].
Qed.

Lemma readable_dict `{FloatConv} pc d :
  readable pc (PyDict d) <-> Forall (fun kv => readable pc (snd kv)) d.
Proof.
  cbn [readable]. induction d as [|kv d IH]; cbn [fold_right].
  - split; auto.
  - rewrite IH. split; [intros [? ?]; now constructor | now inversion 1].
Qed.

Lemma iterencode_starts_readable `{FloatConv} pc indent level o :
  readable pc o -> starts_value (iterencode indent level o).
Proof.
  assert (Hlit : forall c r, is_ws c = false -> c <> 93 -> c <> 125 ->
                             c <> 0xfeff -> starts_value (c :: r)).
  { intros c r ? ? ? ?. now exists c, r. }
  destruct o as [ |[|]|z|f|s|[|x l]|[|kv d]]; intros Hwf; cbn [iterencode];
    try (apply Hlit; [reflexivity | discriminate | discriminate | discriminate]).
  - destruct (int_repr_head z) as (c & r & -> & Hc). now apply number_head_starts.
  - rewrite floatstr_cases.
    destruct f as [s|[|]| |s m e]; cbn [readable float_readable] in Hwf;
      try (apply Hlit; [reflexivity | discriminate | discriminate | discriminate]).
    all: unfold float_lexeme in Hwf.
    all: destruct (match_number (float_repr _)) as [[[[i fr] e'] r]|] eqn:Hm;
      [|discriminate].
    all: destruct (match_number_head _ _ _ _ _ Hm) as (c & t & -> & Hc).
    all: now apply number_head_starts.
Qed.

Section ReadAny.
Context `{FloatConv}.
Variable pc : pystr -> option spec_float.

Lemma scan_once_float_canon fuel f rest :
  float_readable pc f -> ends_token rest = true ->
  scan_once pc (S fuel) (floatstr f ++ rest) = Some (PyFloat (canon_float f), rest).
Proof.
  intros Hf Hr. rewrite floatstr_cases. unfold canon_float.
  destruct f as [s|[|]| |s m e]; cbn [float_readable is_finite] in Hf |- *.
  - now rewrite scan_once_float_lexeme.
  - cbn in Hf |- *. unfold constant. cbn. now rewrite Hf.
  - cbn in Hf |- *. unfold constant. cbn. now rewrite Hf.
  - cbn in Hf |- *. unfold constant. cbn. now rewrite Hf.
  - now rewrite scan_once_float_lexeme.
Qed.

Lemma scan_once_str_canon fuel s rest :
  scan_once pc (S fuel) (encode_basestring_ascii s ++ rest)
  = Some (PyStr (canon_str s), rest).
Proof.
  unfold encode_basestring_ascii. cbn [app]. rewrite <- app_assoc. cbn [app].
  cbn [scan_once N.eqb Pos.eqb]. now rewrite scanstring_canon.
Qed.

Lemma JSONArray_loop_canon f indent level closing rest l :
  forall n x,
  Forall (reads_canon pc f indent level) (x :: l) ->
  Forall (readable pc) (x :: l) ->
  let T := join (44 :: newline_indent indent level)
             (map (iterencode indent level) (x :: l))
           ++ newline_indent indent closing ++ 93 :: rest in
  (length T < n)%nat -> (length T < f)%nat ->
  JSONArray_loop (scan_once pc f) n T = Some (map canon (x :: l), rest).
Proof.
  induction l as [|y l IH]; intros n x Hrb Hwf T Hn Hf; subst T;
    (destruct n as [|n]; [inversion Hn|]);
    apply Forall_cons in Hrb as [Hx Hrb]; apply Forall_cons in Hwf as [Hwx Hwf].
  - cbn [map join] in *. cbn [JSONArray_loop].
    rewrite Hx by (auto using ends_token_newline_indent).
    rewrite skip_ws_newline_indent. reflexivity.
  - cbn [map] in *. rewrite join_cons2 in *. rewrite <- !app_assoc in *.
    cbn [JSONArray_loop]. rewrite Hx by auto. cbn [app].
    cbn [skip_ws is_ws N.eqb Pos.eqb orb]. rewrite skip_ws_newline_indent.
    set (T := join _ (iterencode indent level y :: _) ++ _) in *.
    assert (HT : starts_value T).
    { subst T. destruct l; cbn [map]; [|rewrite join_cons2];
        repeat apply starts_value_app;
        apply (iterencode_starts_readable pc); now inversion Hwf. }
    rewrite (skip_ws_starts _ HT).
    rewrite !length_app in Hn, Hf. cbn [length] in Hn, Hf.
    subst T. rewrite (IH n y); auto; lia.
Qed.

Lemma JSONObject_loop_canon f indent level closing rest d :
  forall n k v,
  Forall (fun kv => reads_canon pc f indent level (snd kv)) ((k, v) :: d) ->
  Forall (fun kv => readable pc (snd kv)) ((k, v) :: d) ->
  let T := join (44 :: newline_indent indent level)
             (map (fun kv => encode_basestring_ascii (fst kv) ++ py ": "
                             ++ iterencode indent level (snd kv)) ((k, v) :: d))
           ++ newline_indent indent closing ++ 125 :: rest in
  (length T < n)%nat -> (length T < f)%nat ->
  JSONObject_loop (scan_once pc f) n (tail T)
  = Some (map (fun kv => (canon_str (fst kv), canon (snd kv))) ((k, v) :: d), rest).
Proof.
  change (py ": ") with [58; 32].
  induction d as [|[k' v'] d IH]; intros n k v Hrb Hwf T Hn Hf; subst T;
    (destruct n as [|n]; [inversion Hn|]);
    apply Forall_cons in Hrb as [Hv Hrb]; apply Forall_cons in Hwf as [Hwv Hwf];
    cbn [fst snd] in *.
  - cbn [map join fst snd] in *. unfold encode_basestring_ascii in *.
    rewrite <- !app_assoc in *. cbn [app tail] in *. rewrite <- !app_assoc in *.
    cbn [app] in *. cbn [JSONObject_loop].
    rewrite scanstring_canon.
    cbn [skip_ws is_ws N.eqb Pos.eqb orb].
    rewrite (skip_ws_starts (iterencode _ _ _ ++ _))
      by (apply starts_value_app, (iterencode_starts_readable pc); assumption).
    lens_in Hf.
    rewrite Hv; [| apply ends_token_newline_indent | lens; lia].
    rewrite skip_ws_newline_indent. reflexivity.
  - cbn [map fst snd] in *. rewrite join_cons2 in *.
    unfold encode_basestring_ascii at 1.
    unfold encode_basestring_ascii at 1 in Hn.
    unfold encode_basestring_ascii at 1 in Hf.
    rewrite <- !app_assoc in *. cbn [app tail] in *. rewrite <- !app_assoc in *.
    cbn [app] in *. cbn [JSONObject_loop].
    rewrite scanstring_canon.
    cbn [skip_ws is_ws N.eqb Pos.eqb orb].
    rewrite (skip_ws_starts (iterencode _ _ _ ++ _))
      by (apply starts_value_app, (iterencode_starts_readable pc); assumption).
    lens_in Hf. lens_in Hn.
    rewrite Hv; [| reflexivity | lens; lia].
    cbn [skip_ws is_ws N.eqb Pos.eqb orb]. rewrite skip_ws_newline_indent.
    set (T := join _ (_ :: _) ++ _) in *.
    assert (exists t, T = 34 :: t) as [t HT].
    { subst T. destruct d; cbn [map]; [|rewrite join_cons2];
        unfold encode_basestring_ascii; cbn [app]; eauto. }
    specialize (IH n k' v' Hrb Hwf). cbv zeta in IH. fold T in IH.
    rewrite HT in IH |- *. cbn [tail] in IH.
    cbn [skip_ws is_ws N.eqb Pos.eqb orb].
    rewrite IH; [reflexivity | |]; rewrite <- HT; subst T; lens; lia.
Qed.

(** Whatever the object, the indent and the nesting level, the scanner
    reads the encoding as [canon] of the object, given fuel beyond the length
    of the text. *)
Theorem scan_once_canon o :
  forall indent level f, readable pc o -> reads_canon pc f indent level o.
Proof.
  induction o as [ |b|z|fl|s|l IHl|d IHd] using pyobj_ind';
    intros indent level f Hwf rest Hr Hlen;
    (destruct f as [|f]; [inversion Hlen|]).
  - reflexivity.
  - destruct b; reflexivity.
  - now apply scan_once_int.
  - now apply scan_once_float_canon.
  - now apply scan_once_str_canon.
  - apply readable_list in Hwf. destruct l as [|x l]; [reflexivity|].
    cbn [iterencode canon] in *. change (py "[") with [91] in *. change (py "]") with [93] in *.
    change (py ",") with [44] in *.
    cbn zeta in *. rewrite <- !app_assoc in *. cbn [app] in *.
    cbn [scan_once N.eqb Pos.eqb]. unfold JSONArray.
    rewrite skip_ws_newline_indent.
    set (T := join _ _ ++ _) in *.
    assert (HT : starts_value T).
    { subst T. destruct l; cbn [map]; [|rewrite join_cons2];
        repeat apply starts_value_app;
        apply (iterencode_starts_readable pc); now inversion Hwf. }
    rewrite (skip_ws_starts _ HT). destruct HT as (c & r & HT & _ & Hc & _).
    rewrite HT. destruct (N.eqb_spec c 93); [contradiction|]. rewrite <- HT.
    lens_in Hlen. subst T.
    rewrite JSONArray_loop_canon; auto; try lia.
    rewrite Forall_forall in IHl, Hwf |- *. intros a Ha. apply IHl; auto.
  - apply readable_dict in Hwf. destruct d as [|[k v] d]; [reflexivity|].
    cbn [iterencode canon] in *. change (py "{") with [123] in *. change (py "}") with [125] in *.
    change (py ",") with [44] in *.
    cbn zeta in *. rewrite <- !app_assoc in *. cbn [app] in *.
    cbn [scan_once N.eqb Pos.eqb]. unfold JSONObject.
    rewrite skip_ws_newline_indent.
    set (T := join _ _ ++ _) in *.
    assert (exists t, T = 34 :: t) as [t HT].
    { subst T. destruct d; cbn [map]; [|rewrite join_cons2];
        unfold encode_basestring_ascii; cbn [app]; eauto. }
    pose proof (JSONObject_loop_canon f indent (S level) level rest d f k v) as Hloop.
    cbv zeta in Hloop. fold T in Hloop. rewrite HT in Hloop |- *. cbn [tail] in Hloop.
    cbn [skip_ws is_ws N.eqb Pos.eqb orb].
    rewrite Hloop.
    + reflexivity.
    + rewrite Forall_forall in IHd, Hwf |- *. intros kv Hin. apply IHd; auto.
    + exact Hwf.
    + rewrite <- HT. lens_in Hlen. lia.
    + rewrite <- HT. lens_in Hlen. lia.
Qed.

(** [json.loads(json.dumps(o, indent=n))] for any object the decoder can
    read the floats of: the object with its surrogate pairs joined and its
    dictionaries rebuilt. *)
Theorem loads_dumps_canon indent o :
  readable pc o -> json_loads_with pc (json_dumps indent o) = Some (canon o).
Proof.
  intros Hwf. unfold json_loads_with, json_dumps.
  pose proof (iterencode_starts_readable pc indent 0 o Hwf) as Hs.
  rewrite (skip_ws_starts _ Hs).
  destruct Hs as (c & r & Hs & _ & _ & _ & Hbom).
  rewrite Hs. destruct (N.eqb_spec c 0xfeff); [contradiction|]. rewrite <- Hs.
  pose proof (scan_once_canon o indent 0
                (S (length (iterencode indent 0 o))) Hwf [] eq_refl) as Hrb.
  rewrite app_nil_r in Hrb. rewrite Hrb by lia. reflexivity.
Qed.
End ReadAny.

(** ** What the decoder returns is well-formed *)

Lemma push_inv {A} (c : A) res l r :
  push c res = Some (l, r) -> exists l', l = c :: l' /\ res = Some (l', r).
Proof.
  destruct res as [[l' r']|]; [|discriminate]. intros [= <- <-]. eauto.
Qed.

Lemma text_ok_suffix r s : suffix r s -> text_ok s -> text_ok r.
Proof. intros [k ->] Hs. now apply Forall_app in Hs as [_ ?]. Qed.

Lemma scalar_not_surrogate c :
  is_scalar c = true ->
  c < 0x110000 /\ is_high_surrogate c = false /\ is_low_surrogate c = false.
Proof.
  unfold is_scalar, is_surrogate, is_high_surrogate, is_low_surrogate.
  intros Hc. apply andb_true_iff in Hc as [H1 H2]. apply N.ltb_lt in H1.
  apply negb_true_iff, andb_false_iff in H2.
  repeat split; [assumption| |]; apply andb_false_iff;
    destruct H2 as [H2|H2]; apply N.leb_gt in H2;
    (left; apply N.leb_gt; lia) || (right; apply N.leb_gt; lia).
Qed.

Lemma small_not_surrogate c :
  c < 0xd800 -> c < 0x110000 /\ is_high_surrogate c = false /\ is_low_surrogate c = false.
Proof.
  intros Hc. unfold is_high_surrogate, is_low_surrogate.
  repeat split; [lia| |]; apply andb_false_iff; left; apply N.leb_gt; lia.
Qed.

Lemma backslash_small esc char : backslash esc = Some char -> char < 0xd800.
Proof.
  unfold backslash.
  repeat (match goal with |- context [N.eqb esc ?k] => destruct (N.eqb esc k) end;
          [intros [= <-]; reflexivity|]).
  discriminate.
Qed.

Lemma hexval_bound c x : hexval c = Some x -> x < 16.
Proof.
  unfold hexval, is_digit.
  destruct ((48 <=? c) && (c <=? 57)) eqn:E1.
  { apply andb_true_iff in E1 as [H1 H2]. apply N.leb_le in H1, H2.
    intros [= <-]. lia. }
  destruct ((97 <=? c) && (c <=? 102)) eqn:E2.
  { apply andb_true_iff in E2 as [H1 H2]. apply N.leb_le in H1, H2.
    intros [= <-]. lia. }
  destruct ((65 <=? c) && (c <=? 70)) eqn:E3; [|discriminate].
  apply andb_true_iff in E3 as [H1 H2]. apply N.leb_le in H1, H2.
  intros [= <-]. lia.
Qed.

Lemma decode_uXXXX_bound a b c d u : decode_uXXXX a b c d = Some u -> u < 65536.
Proof.
  unfold decode_uXXXX.
  destruct (hexval a) as [x|] eqn:Ha; [|discriminate].
  destruct (hexval b) as [y|] eqn:Hb; [|discriminate].
  destruct (hexval c) as [z|] eqn:Hc; [|discriminate].
  destruct (hexval d) as [w|] eqn:Hd; [|discriminate].
  apply hexval_bound in Ha, Hb, Hc, Hd. intros [= <-]. lia.
Qed.

(** One more decoded character in front of a scanned string. *)
Lemma scanned_ok_step s t c0 str' r :
  scanned_ok t str' r ->
  suffix t s -> (length t < length s)%nat ->
  (text_ok s ->
   c0 < 0x110000
   /\ (is_high_surrogate c0 = true -> starts_low_escape t = false)
   /\ (is_low_surrogate c0 = true -> starts_low_escape s = true)) ->
  scanned_ok s (c0 :: str') r.
Proof.
  intros (Hsuf & Hlen & Hok) Hts Htl Hc0. repeat split.
  - now transitivity t.
  - lia.
  - destruct (Hc0 H) as (Hr & Hhi & _).
    destruct (Hok (text_ok_suffix _ _ Hts H)) as (Hstr & Hhead).
    cbn [str_ok]. rewrite Hstr, andb_true_r.
    apply andb_true_iff. split; [now apply N.ltb_lt|].
    apply negb_true_iff. destruct (is_high_surrogate c0) eqn:Eh; [|reflexivity].
    destruct str' as [|c1 str1]; [reflexivity|]. cbn [andb].
    destruct (is_low_surrogate c1) eqn:El; [|reflexivity].
    rewrite (Hhead c1 str1 eq_refl El) in Hhi. now discriminate Hhi.
  - intros c str1 [= <- <-] Hl. now apply (Hc0 H).
Qed.

Lemma suffix_drop {A} (k l : list A) : suffix l (k ++ l).
Proof. now exists k. Qed.

Lemma scanstring_sound_aux n :
  forall s, (length s <= n)%nat ->
  forall str r, scanstring s = Some (str, r) -> scanned_ok s str r.
Proof.
  induction n as [|n IH]; intros s Hlen str r Hs.
  { destruct s; [discriminate | cbn in Hlen; lia]. }
  destruct s as [|c s1]; [discriminate|]. cbn [scanstring] in Hs.
  cbn [length] in Hlen.
  destruct (N.eqb_spec c 34) as [->|Hq].
  { injection Hs as <- <-. repeat split.
    - apply (suffix_drop [34]).
    - cbn. lia.
    - discriminate. }
  destruct (N.eqb_spec c 92) as [->|Hb].
  - destruct s1 as [|esc r1]; [discriminate|]. cbn [length] in Hlen.
    destruct (N.eqb_spec esc 117) as [->|Hu].
    + destruct r1 as [|h1 [|h2 [|h3 [|h4 r2]]]]; try discriminate.
      cbn [length] in Hlen.
      destruct (decode_uXXXX h1 h2 h3 h4) as [uni|] eqn:Hd; [|discriminate].
      pose proof (decode_uXXXX_bound _ _ _ _ _ Hd) as Hub.
      assert (Hplain : forall str', scanstring r2 = Some (str', r) ->
                is_high_surrogate uni && starts_low_escape r2 = false ->
                scanned_ok (92 :: 117 :: h1 :: h2 :: h3 :: h4 :: r2) (uni :: str') r).
      { intros str' Hs' Hnp. eapply scanned_ok_step.
        - apply (IH r2); [lia | exact Hs'].
        - apply (suffix_drop [92; 117; h1; h2; h3; h4]).
        - cbn. lia.
        - intros _. repeat split.
          + lia.
          + intros Hh. now rewrite Hh in Hnp.
          + intros Hl. cbn [starts_low_escape N.eqb Pos.eqb andb]. now rewrite Hd. }
      destruct r2 as [|bs [|u r2']].
      * apply push_inv in Hs as (str' & -> & Hs). apply Hplain; [exact Hs|].
        apply andb_false_r.
      * apply push_inv in Hs as (str' & -> & Hs). apply Hplain; [exact Hs|].
        apply andb_false_r.
      * destruct (is_high_surrogate uni && (bs =? 92) && (u =? 117)) eqn:Ehp.
        -- destruct r2' as [|g1 [|g2 [|g3 [|g4 r3]]]]; try discriminate.
           cbn [length] in Hlen.
           destruct (decode_uXXXX g1 g2 g3 g4) as [uni2|] eqn:Hd2; [|discriminate].
           destruct (is_low_surrogate uni2) eqn:El.
           ++ apply push_inv in Hs as (str' & -> & Hs).
              apply andb_true_iff in Ehp as [Ehp _].
              apply andb_true_iff in Ehp as [Ehp _].
              pose proof (join_surrogates_bound _ _ Ehp El) as [Hj1 Hj2].
              eapply scanned_ok_step.
              ** apply (IH r3); [lia | exact Hs].
              ** apply (suffix_drop [92; 117; h1; h2; h3; h4; bs; u; g1; g2; g3; g4]).
              ** cbn. lia.
              ** intros _. repeat split; [assumption| |].
                 --- unfold is_high_surrogate. intros Hh.
                     apply andb_true_iff in Hh as [_ Hh]. apply N.leb_le in Hh. lia.
                 --- unfold is_low_surrogate. intros Hl.
                     apply andb_true_iff in Hl as [_ Hl]. apply N.leb_le in Hl. lia.
           ++ apply push_inv in Hs as (str' & -> & Hs). apply Hplain; [exact Hs|].
              apply andb_false_iff. right.
              cbn [starts_low_escape]. rewrite Hd2, El. apply andb_false_r.
        -- apply push_inv in Hs as (str' & -> & Hs). apply Hplain; [exact Hs|].
           cbn [starts_low_escape].
           destruct (is_high_surrogate uni); [|reflexivity]. cbn [andb] in *.
           now rewrite Ehp.
    + destruct (backslash esc) as [char|] eqn:Hbs; [|discriminate].
      apply push_inv in Hs as (str' & -> & Hs).
      pose proof (small_not_surrogate _ (backslash_small _ _ Hbs)) as (H1 & H2 & H3).
      eapply scanned_ok_step.
      * apply (IH r1); [lia | exact Hs].
      * apply (suffix_drop [92; esc]).
      * cbn. lia.
      * intros _. repeat split; [assumption| |]; congruence.
  - destruct (N.ltb_spec c 32); [discriminate|].
    apply push_inv in Hs as (str' & -> & Hs).
    eapply scanned_ok_step.
    + apply (IH s1); [lia | exact Hs].
    + apply (suffix_drop [c]).
    + cbn. lia.
    + intros Hok. apply Forall_cons in Hok as [Hc _].
      apply scalar_not_surrogate in Hc as (H1 & H2 & H3).
      repeat split; [assumption| |]; congruence.
Qed.

Lemma scanstring_sound s str r :
  scanstring s = Some (str, r) -> scanned_ok s str r.
Proof. now apply (scanstring_sound_aux (length s)). Qed.

(** ** The lexeme of a float is a float lexeme *)

Lemma span_digits_digits s d r :
  span_digits s = (d, r) -> Forall (fun c => is_digit c = true) d.
Proof.
  revert d r. induction s as [|c s IH]; intros d r; cbn [span_digits].
  - intros [= <- <-]. constructor.
  - destruct (is_digit c) eqn:Ec; [|intros [= <- <-]; constructor].
    destruct (span_digits s) as [d' r']. intros [= <- <-].
    constructor; [assumption | now apply (IH d' r')].
Qed.

Lemma match_natural_rematch s i r t :
  match_natural s = Some (i, r) ->
  match t with [] => True | c :: _ => is_digit c = false end ->
  match_natural (i ++ t) = Some (i, t).
Proof.
  unfold match_natural. destruct s as [|c s]; [discriminate|].
  destruct (N.eqb_spec c 48) as [->|Hz]; [now intros [= <- <-]|].
  destruct (is_digit c) eqn:Ec; [|discriminate].
  destruct (span_digits s) as [d r'] eqn:E. intros [= <- <-] Ht. cbn [app].
  destruct (N.eqb_spec c 48); [contradiction|]. rewrite Ec.
  now rewrite (span_digits_app d t (span_digits_digits _ _ _ E) Ht).
Qed.

Lemma match_integer_rematch s i r t :
  match_integer s = Some (i, r) ->
  match t with [] => True | c :: _ => is_digit c = false end ->
  match_integer (i ++ t) = Some (i, t).
Proof.
  unfold match_integer. destruct s as [|c s]; [discriminate|].
  destruct (N.eqb_spec c 45) as [->|Hm].
  - destruct (match_natural s) as [[d r']|] eqn:E; [|discriminate].
    intros [= <- <-] Ht. cbn [app N.eqb Pos.eqb].
    now rewrite (match_natural_rematch _ _ _ _ E Ht).
  - intros Hn Ht. pose proof (match_natural_rematch _ _ _ _ Hn Ht) as Hre.
    assert (exists c' i', i = c' :: i' /\ c' <> 45) as (c' & i' & -> & Hc').
    { unfold match_natural in Hn.
      destruct (N.eqb_spec c 48) as [->|_]; [injection Hn as <- <-; eauto|].
      destruct (is_digit c); [|discriminate].
      destruct (span_digits s). injection Hn as <- <-. eauto. }
    cbn [app] in *. destruct (N.eqb_spec c' 45); [contradiction|]. exact Hre.
Qed.

Lemma match_frac_rematch s f r t :
  match_frac s = (f, r) ->
  match t with [] => True | c :: _ => is_digit c = false /\ c <> 46 end ->
  match_frac (f ++ t) = (f, t).
Proof.
  unfold match_frac. intros Hs Ht.
  assert (Hnil : match_frac ([] ++ t) = ([], t)).
  { unfold match_frac. destruct t as [|c t]; [reflexivity|]. cbn [app].
    destruct (N.eqb_spec c 46); [tauto|reflexivity]. }
  destruct s as [|c s]; [now injection Hs as <- <-|].
  destruct (N.eqb_spec c 46) as [->|_]; [|now injection Hs as <- <-].
  destruct (span_digits s) as [d r'] eqn:E.
  destruct d as [|d0 d]; injection Hs as <- <-; [exact Hnil|].
  cbn [app N.eqb Pos.eqb].
  change (d0 :: d ++ t) with ((d0 :: d) ++ t).
  rewrite (span_digits_app (d0 :: d) t (span_digits_digits _ _ _ E)); [reflexivity|].
  destruct t; tauto.
Qed.

Lemma match_exp_rematch s e r :
  match_exp s = (e, r) ->
  match_exp e = (e, [])
  /\ match e with [] => True | c :: _ => is_digit c = false /\ c <> 46 end.
Proof.
  unfold match_exp. destruct s as [|c s]; [intros [= <- <-]; auto|].
  destruct ((c =? 101) || (c =? 69)) eqn:Ec; [|intros [= <- <-]; auto].
  assert (Hc : is_digit c = false /\ c <> 46).
  { apply orb_true_iff in Ec as [Ec|Ec]; apply N.eqb_eq in Ec; subst c;
      split; [reflexivity|discriminate|reflexivity|discriminate]. }
  destruct s as [|c1 s].
  { cbn [span_digits]. intros [= <- <-]; auto. }
  destruct ((c1 =? 45) || (c1 =? 43)) eqn:Es.
  - destruct (span_digits s) as [d r'] eqn:E.
    destruct d as [|d0 d]; intros [= <- <-]; [auto|]. split; [|exact Hc].
    rewrite Ec. cbn [app]. rewrite Es.
    pose proof (span_digits_app (d0 :: d) [] (span_digits_digits _ _ _ E) I) as Hsp.
    rewrite app_nil_r in Hsp. now rewrite Hsp.
  - destruct (span_digits (c1 :: s)) as [d r'] eqn:E.
    destruct d as [|d0 d]; intros [= <- <-]; [auto|]. split; [|exact Hc].
    rewrite Ec. cbn [app].
    assert (d0 = c1) as ->.
    { cbn [span_digits] in E. destruct (is_digit c1); [|discriminate].
      destruct (span_digits s). now injection E as <- _. }
    rewrite Es.
    pose proof (span_digits_app (c1 :: d) [] (span_digits_digits _ _ _ E) I) as Hsp.
    rewrite app_nil_r in Hsp. now rewrite Hsp.
Qed.

Lemma match_frac_head s f r :
  match_frac s = (f, r) ->
  match f with [] => True | c :: _ => is_digit c = false end.
Proof.
  unfold match_frac. destruct s as [|c s]; [now intros [= <- <-]|].
  destruct (N.eqb_spec c 46) as [->|_]; [|now intros [= <- <-]].
  destruct (span_digits s) as [[|d0 d] r']; now intros [= <- <-].
Qed.

(** The lexeme that the scanner hands to [float] is a float lexeme. *)
Lemma match_number_lexeme s i f e r :
  match_number s = Some (i, f, e, r) ->
  f <> [] \/ e <> [] ->
  float_lexeme (i ++ f ++ e) = true.
Proof.
  unfold match_number, float_lexeme. intros Hs Hfe.
  destruct (match_integer s) as [[i0 r0]|] eqn:Ei; [|discriminate].
  destruct (match_frac r0) as [f0 r1] eqn:Ef.
  destruct (match_exp r1) as [e0 r2] eqn:Ee.
  injection Hs as <- <- <- <-.
  destruct (match_exp_rematch _ _ _ Ee) as [Hre He].
  pose proof (match_frac_head _ _ _ Ef) as Hf.
  unfold match_number.
  rewrite (match_integer_rematch _ _ _ (f0 ++ e0) Ei).
  - rewrite (match_frac_rematch _ _ _ e0 Ef He), Hre.
    destruct f0, e0; try reflexivity. destruct Hfe; congruence.
  - destruct f0 as [|c f0]; [|exact Hf]. cbn [app]. destruct e0; tauto.
Qed.

(** ** [dict(pairs)] *)

Lemma dict_set_keys d k v x :
  x ∈ map fst (dict_set d k v) -> x = k \/ x ∈ map fst d.
Proof.
  induction d as [|[k' v'] d IH]; cbn [dict_set map fst].
  - intros Hx. apply list_elem_of_singleton in Hx. now left.
  - destruct (decide (k = k')) as [->|Hne]; cbn [map fst].
    + intros Hx. now right.
    + intros Hx. apply elem_of_cons in Hx as [->|Hx].
      * right. left.
      * destruct (IH Hx) as [->|Hin]; [now left|]. right. now right.
Qed.

Lemma dict_set_nodup d k v :
  NoDup (map fst d) -> NoDup (map fst (dict_set d k v)).
Proof.
  induction d as [|[k' v'] d IH]; cbn [dict_set map fst]; intros Hnd.
  - apply NoDup_singleton.
  - apply NoDup_cons in Hnd as [Hk' Hnd].
    destruct (decide (k = k')) as [->|Hne]; cbn [map fst].
    + now apply NoDup_cons.
    + apply NoDup_cons. split; [|now apply IH].
      intros Hin. apply dict_set_keys in Hin as [->|Hin]; auto.
Qed.

Lemma dict_set_Forall (Q : pystr * pyobj -> Prop) d k v :
  Forall Q d -> Q (k, v) -> Forall Q (dict_set d k v).
Proof.
  induction d as [|[k' v'] d IH]; cbn [dict_set]; intros Hd Hq.
  - now constructor.
  - apply Forall_cons in Hd as [Hq' Hd].
    destruct (decide (k = k')); constructor; auto.
Qed.

Lemma dict_of_pairs_ok (Q : pystr * pyobj -> Prop) pairs :
  Forall Q pairs ->
  NoDup (map fst (dict_of_pairs pairs)) /\ Forall Q (dict_of_pairs pairs).
Proof.
  unfold dict_of_pairs.
  enough (Hgen : forall acc, NoDup (map fst acc) -> Forall Q acc -> Forall Q pairs ->
            let d := fold_left (fun d kv => dict_set d (fst kv) (snd kv)) pairs acc in
            NoDup (map fst d) /\ Forall Q d).
  { intros Hp. apply (Hgen []); [constructor | constructor | exact Hp]. }
  induction pairs as [|[k v] pairs IH]; intros acc Hnd Hacc Hp; cbn [fold_left].
  - now split.
  - apply Forall_cons in Hp as [Hkv Hp]. apply IH; [| |exact Hp].
    + now apply dict_set_nodup.
    + now apply dict_set_Forall.
Qed.

(** ** What [scan_once] returns is well-formed *)

Lemma skip_ws_suffix s : suffix (skip_ws s) s.
Proof.
  induction s as [|c s IH]; [reflexivity|]. cbn [skip_ws].
  destruct (is_ws c); [now apply suffix_cons_r | reflexivity].
Qed.

Lemma skip_ws_length s : (length (skip_ws s) <= length s)%nat.
Proof. apply suffix_length, skip_ws_suffix. Qed.

Lemma strip_prefix_split p s r : strip_prefix p s = Some r -> s = p ++ r.
Proof.
  revert s. induction p as [|a p IH]; intros s; cbn [strip_prefix].
  - now intros [= ->].
  - destruct s as [|b s]; [discriminate|].
    destruct (N.eqb_spec a b) as [->|_]; [|discriminate].
    intros Hs. now rewrite (IH _ Hs).
Qed.

Lemma float_ok_nonfinite `{FloatConv} f : is_finite f = false -> float_ok CONSTANTS f.
Proof. destruct f as [s|[|]| |s m e]; try discriminate; reflexivity. Qed.

Lemma float_ok_of_str `{FloatConvLaws} lex :
  float_lexeme lex = true -> float_ok CONSTANTS (float_of_str lex).
Proof.
  intros Hl. destruct (is_finite (float_of_str lex)) eqn:Ef;
    [|now apply float_ok_nonfinite].
  pose proof (repr_lexeme lex Hl Ef) as H1.
  pose proof (repr_roundtrip lex Hl Ef) as H2.
  destruct (float_of_str lex) as [s|[|]| |s m e]; try discriminate; now split.
Qed.

Lemma suffix_step {A} (r t s : list A) :
  suffix r t -> suffix t s -> (length t < length s)%nat ->
  suffix r s /\ (length r < length s)%nat.
Proof.
  intros H1 H2 H3. split; [now transitivity t|].
  apply suffix_length in H1. lia.
Qed.

Lemma suffix_skip_ws_cons c (r t : pystr) : skip_ws t = c :: r -> suffix r t.
Proof.
  intros E. pose proof (skip_ws_suffix t) as Hs. rewrite E in Hs.
  now apply suffix_cons_l in Hs.
Qed.

(** The scanner's results have any property [W] that its leaves have and
    that lists and dictionaries inherit from their items. The property may
    depend on one of the text, [T], that the rest of a text inherits and
    that gives the strings read from it the property [Q]. *)
Section Sound.
Context `{FloatConv}.
Variable pc : pystr -> option spec_float.
Variable T : pystr -> Prop.
Variable Q : pystr -> Prop.
Variable W : pyobj -> Prop.
Hypothesis T_suffix : forall r s, suffix r s -> T s -> T r.
Hypothesis T_str : forall s str r, scanstring s = Some (str, r) -> T s -> Q str.
Hypothesis W_none : W PyNone.
Hypothesis W_bool : forall b, W (PyBool b).
Hypothesis W_int : forall z, W (PyInt z).
Hypothesis W_float : forall lex, float_lexeme lex = true -> W (PyFloat (float_of_str lex)).
Hypothesis W_const : forall name f, pc name = Some f -> W (PyFloat f).
Hypothesis W_str : forall s, Q s -> W (PyStr s).
Hypothesis W_list : forall l, Forall W l -> W (PyList l).
Hypothesis W_dict : forall d,
  NoDup (map fst d) -> Forall (fun kv => Q (fst kv) /\ W (snd kv)) d ->
  W (PyDict d).

Lemma JSONArray_loop_sound scan :
  scanner_inv T W scan ->
  forall n s l r, JSONArray_loop scan n s = Some (l, r) ->
    suffix r s /\ (length r < length s)%nat
    /\ (T s -> Forall W l).
Proof.
  intros Hscan. induction n as [|n IH]; intros s l r Hl; [discriminate|].
  cbn [JSONArray_loop] in Hl.
  destruct (scan s) as [[value r0]|] eqn:Es; [|discriminate].
  destruct (Hscan _ _ _ Es) as (Hsuf & Hlen & Hwf).
  destruct (skip_ws r0) as [|c r'] eqn:Ew; [discriminate|].
  apply suffix_skip_ws_cons in Ew.
  destruct (N.eqb_spec c 93) as [_|_].
  - injection Hl as <- <-.
    destruct (suffix_step _ _ _ Ew Hsuf Hlen) as [H1 H2].
    repeat split; auto.
  - destruct (N.eqb_spec c 44) as [_|_]; [|discriminate].
    apply push_inv in Hl as (l' & -> & Hl).
    destruct (IH _ _ _ Hl) as (H1 & H2 & H3).
    pose proof (skip_ws_suffix r') as Hws.
    assert (Hr' : suffix (skip_ws r') s) by (now do 2 (etransitivity; [eassumption|])).
    split; [now transitivity (skip_ws r')|]. split.
    + apply suffix_length in Hws, Ew. lia.
    + intros Hok. constructor; [auto|]. apply H3. now apply (T_suffix _ s).
Qed.

Lemma JSONArray_sound scan n :
  scanner_inv T W scan ->
  forall s v r, JSONArray scan n s = Some (v, r) ->
    suffix r s /\ (length r <= length s)%nat /\ (T s -> W v).
Proof.
  intros Hscan s v r. unfold JSONArray.
  destruct (skip_ws s) as [|c r'] eqn:Ew; [discriminate|].
  pose proof (skip_ws_suffix s) as Hws. rewrite Ew in Hws.
  destruct (N.eqb_spec c 93) as [_|_].
  - intros [= <- <-]. apply suffix_cons_l in Hws.
    split; [assumption|]. split; [now apply suffix_length|]. intros _.
    apply W_list. constructor.
  - destruct (JSONArray_loop scan n (c :: r')) as [[values r'']|] eqn:El; [|discriminate].
    intros [= <- <-].
    destruct (JSONArray_loop_sound scan Hscan _ _ _ _ El) as (H1 & H2 & H3).
    split; [now transitivity (c :: r')|]. split.
    + apply suffix_length in Hws. lia.
    + intros Hok. apply W_list, H3. now apply (T_suffix _ s).
Qed.

Lemma JSONObject_loop_sound scan :
  scanner_inv T W scan ->
  forall n s pairs r, JSONObject_loop scan n s = Some (pairs, r) ->
    suffix r s /\ (length r < length s)%nat
    /\ (T s ->
        Forall (fun kv => Q (fst kv) /\ W (snd kv)) pairs).
Proof.
  intros Hscan. induction n as [|n IH]; intros s pairs r Hl; [discriminate|].
  cbn [JSONObject_loop] in Hl.
  destruct (scanstring s) as [[key r0]|] eqn:Ek; [|discriminate].
  destruct (scanstring_sound _ _ _ Ek) as (Hk1 & Hk2 & _).
  pose proof (T_str _ _ _ Ek) as Hk3.
  destruct (skip_ws r0) as [|c r1] eqn:Ew0; [discriminate|].
  apply suffix_skip_ws_cons in Ew0.
  destruct (N.eqb_spec c 58) as [_|_]; [|discriminate].
  destruct (scan (skip_ws r1)) as [[value r2]|] eqn:Ev; [|discriminate].
  destruct (Hscan _ _ _ Ev) as (Hv1 & Hv2 & Hv3).
  pose proof (skip_ws_suffix r1) as Hw1.
  assert (Hr1 : suffix r1 s) by (now transitivity r0).
  assert (Hr2 : suffix r2 s)
    by (now do 2 (etransitivity; [eassumption|])).
  assert (Hl2 : (length r2 < length s)%nat).
  { apply suffix_length in Hw1, Ew0. lia. }
  assert (Hkv : T s -> Q key /\ W value).
  { intros Hok. split; [now apply Hk3|].
    apply Hv3. apply (T_suffix _ s); [|assumption]. now transitivity r1. }
  destruct (skip_ws r2) as [|c2 r3] eqn:Ew2; [discriminate|].
  apply suffix_skip_ws_cons in Ew2.
  destruct (N.eqb_spec c2 125) as [_|_].
  - injection Hl as <- <-.
    split; [now transitivity r2|]. split.
    + apply suffix_length in Ew2. lia.
    + intros Hok. constructor; [|constructor]. now apply Hkv.
  - destruct (N.eqb_spec c2 44) as [_|_]; [|discriminate].
    destruct (skip_ws r3) as [|q r4] eqn:Ew3; [discriminate|].
    apply suffix_skip_ws_cons in Ew3.
    destruct (N.eqb_spec q 34) as [_|_]; [|discriminate].
    apply push_inv in Hl as (l' & -> & Hl).
    destruct (IH _ _ _ Hl) as (H1 & H2 & H3).
    assert (Hr4 : suffix r4 s)
      by (now do 2 (etransitivity; [eassumption|])).
    split; [now transitivity r4|]. split.
    + apply suffix_length in Ew2, Ew3. lia.
    + intros Hok. constructor; [now apply Hkv|].
      apply H3. now apply (T_suffix _ s).
Qed.

Lemma JSONObject_sound scan n :
  scanner_inv T W scan ->
  forall s v r, JSONObject scan n s = Some (v, r) ->
    suffix r s /\ (length r <= length s)%nat /\ (T s -> W v).
Proof.
  intros Hscan s v r. unfold JSONObject.
  destruct (skip_ws s) as [|c r'] eqn:Ew; [discriminate|].
  apply suffix_skip_ws_cons in Ew.
  destruct (N.eqb_spec c 125) as [_|_].
  - intros [= <- <-].
    split; [assumption|]. split; [now apply suffix_length|]. intros _.
    apply W_dict; constructor.
  - destruct (N.eqb_spec c 34) as [_|_]; [|discriminate].
    destruct (JSONObject_loop scan n r') as [[pairs r'']|] eqn:El; [|discriminate].
    intros [= <- <-].
    destruct (JSONObject_loop_sound scan Hscan _ _ _ _ El) as (H1 & H2 & H3).
    split; [now transitivity r'|]. split.
    + apply suffix_length in Ew. lia.
    + intros Hok.
      assert (Hp : T r') by now apply (T_suffix _ s).
      destruct (dict_of_pairs_ok _ _ (H3 Hp)) as [Hnd Hall]. now apply W_dict.
Qed.

Lemma strip_prefix_sound p s r :
  strip_prefix p s = Some r -> p <> [] ->
  suffix r s /\ (length r < length s)%nat.
Proof.
  intros Hs Hp. apply strip_prefix_split in Hs as ->. split; [apply suffix_drop|].
  rewrite length_app. destruct p; [contradiction|]. cbn. lia.
Qed.

Lemma match_number_sound s i f e r :
  match_number s = Some (i, f, e, r) ->
  suffix r s /\ (length r < length s)%nat.
Proof.
  intros Hm. destruct (match_number_head _ _ _ _ _ Hm) as (c & t & Hs & _).
  pose proof (match_number_split _ _ _ _ _ Hm) as Hsplit.
  assert (Hi : i <> []).
  { unfold match_number in Hm.
    destruct (match_integer s) as [[i0 r0]|] eqn:Ei; [|discriminate].
    destruct (match_frac r0) as [f0 r1]. destruct (match_exp r1) as [e0 r2].
    injection Hm as <- _ _ _.
    unfold match_integer, match_natural in Ei. subst s.
    destruct (c =? 45).
    - destruct t as [|c1 t]; [discriminate|].
      destruct (c1 =? 48); [now injection Ei as <- _|].
      destruct (is_digit c1); [|discriminate].
      destruct (span_digits t). now injection Ei as <- _.
    - destruct (c =? 48); [now injection Ei as <- _|].
      destruct (is_digit c); [|discriminate].
      destruct (span_digits t). now injection Ei as <- _. }
  rewrite Hsplit. split.
  - rewrite !app_assoc. apply suffix_drop.
  - rewrite !length_app. destruct i; [contradiction|]. cbn. lia.
Qed.

Theorem scan_once_inv f : scanner_inv T W (scan_once pc f).
Proof.
  induction f as [|f IH]; intros s v r Hs; [discriminate|].
  cbn [scan_once] in Hs. destruct s as [|c t]; [discriminate|].
  destruct (N.eqb_spec c 34) as [->|_].
  { destruct (scanstring t) as [[str r']|] eqn:Et; [|discriminate].
    injection Hs as <- <-.
    destruct (scanstring_sound _ _ _ Et) as (H1 & H2 & H3).
    split; [now apply suffix_cons_r|]. split; [cbn; lia|].
    intros Hok. apply W_str, (T_str _ _ _ Et), (T_suffix _ (34 :: t)); [|exact Hok].
    now apply suffix_cons_r. }
  destruct (N.eqb_spec c 123) as [->|_].
  { destruct (JSONObject_sound _ _ IH _ _ _ Hs) as (H1 & H2 & H3).
    split; [now apply suffix_cons_r|]. split; [cbn; lia|].
    intros Hok. apply H3, (T_suffix _ (123 :: t)); [|exact Hok].
    now apply suffix_cons_r. }
  destruct (N.eqb_spec c 91) as [->|_].
  { destruct (JSONArray_sound _ _ IH _ _ _ Hs) as (H1 & H2 & H3).
    split; [now apply suffix_cons_r|]. split; [cbn; lia|].
    intros Hok. apply H3, (T_suffix _ (91 :: t)); [|exact Hok].
    now apply suffix_cons_r. }
  assert (Hkw : forall p r', strip_prefix (py p) (c :: t) = Some r' ->
                  py p <> [] -> forall v', W v' ->
                  suffix r' (c :: t) /\ (length r' < length (c :: t))%nat
                  /\ (T (c :: t) -> W v')).
  { intros p r' Hp Hne v' Hv'.
    destruct (strip_prefix_sound _ _ _ Hp Hne). auto. }
  destruct (strip_prefix (py "null") (c :: t)) as [r'|] eqn:E1.
  { injection Hs as <- <-. apply (Hkw _ _ E1); [discriminate | apply W_none]. }
  destruct (strip_prefix (py "true") (c :: t)) as [r'|] eqn:E2.
  { injection Hs as <- <-. apply (Hkw _ _ E2); [discriminate | apply W_bool]. }
  destruct (strip_prefix (py "false") (c :: t)) as [r'|] eqn:E3.
  { injection Hs as <- <-. apply (Hkw _ _ E3); [discriminate | apply W_bool]. }
  destruct (match_number (c :: t)) as [[[[i fr] e] r']|] eqn:Em.
  { destruct (match_number_sound _ _ _ _ _ Em) as [H1 H2].
    destruct fr as [|f0 fr], e as [|e0 e]; injection Hs as <- <-;
      (split; [assumption|]; split; [assumption|]; intros _);
      [apply W_int | | | ];
      apply W_float, (match_number_lexeme _ _ _ _ _ Em);
      (now left) || (now right). }
  unfold constant in Hs.
  destruct (strip_prefix (py "NaN") (c :: t)) as [r'|] eqn:E4.
  { destruct (pc (py "NaN")) as [fl|] eqn:Ec; [|discriminate].
    injection Hs as <- <-. apply (Hkw _ _ E4); [discriminate | now apply (W_const (py "NaN"))]. }
  destruct (strip_prefix (py "Infinity") (c :: t)) as [r'|] eqn:E5.
  { destruct (pc (py "Infinity")) as [fl|] eqn:Ec; [|discriminate].
    injection Hs as <- <-. apply (Hkw _ _ E5); [discriminate | now apply (W_const (py "Infinity"))]. }
  destruct (strip_prefix (py "-Infinity") (c :: t)) as [r'|] eqn:E6; [|discriminate].
  destruct (pc (py "-Infinity")) as [fl|] eqn:Ec; [|discriminate].
  injection Hs as <- <-. apply (Hkw _ _ E6); [discriminate | now apply (W_const (py "-Infinity"))].
Qed.
End Sound.

(** With the default constants, on a decoded text, what [scan_once] returns
    is well-formed. *)
Lemma CONSTANTS_float_ok `{FloatConv} name f :
  CONSTANTS name = Some f -> float_ok CONSTANTS f.
Proof.
  unfold CONSTANTS.
  repeat (destruct (decide _); [now intros [= <-]|]). discriminate.
Qed.

Theorem scan_once_sound `{FloatConvLaws} f :
  scanner_sound (wf CONSTANTS) (scan_once CONSTANTS f).
Proof.
  apply (scan_once_inv CONSTANTS text_ok (fun s => str_ok s = true));
    try (intros; exact I).
  - exact text_ok_suffix.
  - intros s str r Hs Hok. now apply (scanstring_sound _ _ _ Hs).
  - intros lex Hl. now apply float_ok_of_str.
  - apply CONSTANTS_float_ok.
  - auto.
  - intros l Hl. now apply wf_list.
  - intros d Hnd Hd. now apply wf_dict.
Qed.

(** Whatever the constants hook, [scan_once] leaves a strict suffix. *)
Theorem scan_once_shrinks `{FloatConv} pc f s v r :
  scan_once pc f s = Some (v, r) -> suffix r s /\ (length r < length s)%nat.
Proof.
  intros Hs.
  destruct (scan_once_inv pc (fun _ => True) (fun _ => True) (fun _ => True))
    with (f := f) (s := s) (v := v) (r := r) as (H1 & H2 & _); auto.
Qed.

(** What [json.loads] returns for a decoded text is well-formed. *)
Theorem json_loads_wf `{FloatConvLaws} s v :
  text_ok s -> json_loads s = Some v -> wf CONSTANTS v.
Proof.
  unfold json_loads, json_loads_with. intros Hok.
  destruct (match s with [] => false | c :: _ => c =? 65279 end); [discriminate|].
  destruct (scan_once CONSTANTS (S (length (skip_ws s))) (skip_ws s))
    as [[obj r]|] eqn:Es; [|discriminate].
  destruct (skip_ws r); [|discriminate]. intros [= <-].
  apply (scan_once_sound _ _ _ _ Es).
  apply (text_ok_suffix _ s); [apply skip_ws_suffix | exact Hok].
Qed.

(** ** What [json.loads] returns, whatever the text *)

Lemma float_readable_of_str `{FloatConvLaws} lex :
  float_lexeme lex = true -> float_readable CONSTANTS (float_of_str lex).
Proof.
  intros Hl. pose proof (float_ok_of_str lex Hl) as Hok.
  destruct (float_of_str lex) as [s|[|]| |s m e]; cbn in Hok |- *; tauto.
Qed.

Lemma CONSTANTS_float_readable `{FloatConv} name f :
  CONSTANTS name = Some f -> float_readable CONSTANTS f.
Proof.
  intros Hc. pose proof (CONSTANTS_float_ok name f Hc) as Hok.
  destruct f as [s|[|]| |s m e]; cbn in Hok |- *; tauto.
Qed.

(** The floats of what [json.loads] returns can be written and read again. *)
Theorem json_loads_readable `{FloatConvLaws} s v :
  json_loads s = Some v -> readable CONSTANTS v.
Proof.
  unfold json_loads, json_loads_with.
  destruct (match s with [] => false | c :: _ => c =? 65279 end); [discriminate|].
  destruct (scan_once CONSTANTS (S (length (skip_ws s))) (skip_ws s))
    as [[obj r]|] eqn:Es; [|discriminate].
  destruct (skip_ws r); [|discriminate]. intros [= <-].
  assert (Hinv : scanner_inv (fun _ => True) (readable CONSTANTS)
                   (scan_once CONSTANTS (S (length (skip_ws s))))).
  { apply (scan_once_inv CONSTANTS (fun _ => True) (fun _ => True));
      try (intros; exact I).
    - intros lex Hl. now apply float_readable_of_str.
    - apply CONSTANTS_float_readable.
    - intros l Hl. now apply readable_list.
    - intros d _ Hd. apply readable_dict.
      eapply Forall_impl; [exact Hd|]. now intros kv [_ ?]. }
  now apply (Hinv _ _ _ Es).
Qed.

Lemma strings_ok_list l :
  strings_ok (PyList l) = true <-> Forall (fun x => strings_ok x = true) l.
Proof. cbn [strings_ok]. now rewrite forallb_forall, Forall_forall; setoid_rewrite list_elem_of_In. Qed.

Lemma strings_ok_dict d :
  strings_ok (PyDict d) = true
  <-> Forall (fun kv => str_ok (fst kv) = true /\ strings_ok (snd kv) = true) d.
Proof.
  cbn [strings_ok]. rewrite forallb_forall, Forall_forall.
  setoid_rewrite list_elem_of_In. setoid_rewrite andb_true_iff. reflexivity.
Qed.

(** What [json.loads] returns is well-formed as soon as its strings are. *)
Theorem json_loads_strings `{FloatConvLaws} s v :
  json_loads s = Some v -> strings_ok v = true -> wf CONSTANTS v.
Proof.
  unfold json_loads, json_loads_with.
  destruct (match s with [] => false | c :: _ => c =? 65279 end); [discriminate|].
  destruct (scan_once CONSTANTS (S (length (skip_ws s))) (skip_ws s))
    as [[obj r]|] eqn:Es; [|discriminate].
  destruct (skip_ws r); [|discriminate]. intros [= <-].
  assert (Hinv : scanner_inv (fun _ => True)
                   (fun o => strings_ok o = true -> wf CONSTANTS o)
                   (scan_once CONSTANTS (S (length (skip_ws s))))).
  { apply (scan_once_inv CONSTANTS (fun _ => True) (fun _ => True));
      try (intros; exact I).
    - intros lex Hl _. now apply float_ok_of_str.
    - intros name f Hc _. now apply (CONSTANTS_float_ok name).
    - intros str _ Hs. exact Hs.
    - intros l Hl Hs. apply wf_list. apply strings_ok_list in Hs.
      rewrite Forall_forall in Hl, Hs |- *. intros x Hx. now apply Hl, Hs.
    - intros d Hnd Hd Hs. apply wf_dict. split; [exact Hnd|].
      apply strings_ok_dict in Hs.
      rewrite Forall_forall in Hd, Hs |- *. intros kv Hkv.
      destruct (Hs kv Hkv) as [Hk Hv]. split; [exact Hk|]. now apply (Hd kv Hkv). }
  now apply (Hinv _ _ _ Es).
Qed.

Lemma wf_strings_ok `{FloatConv} pc o : wf pc o -> strings_ok o = true.
Proof.
  induction o as [ |b|z|f|s|l IHl|d IHd] using pyobj_ind'; try reflexivity.
  - intros Hs. exact Hs.
  - rewrite wf_list, strings_ok_list. intros Hwf.
    rewrite Forall_forall in IHl, Hwf |- *. intros x Hx. now apply IHl, Hwf.
  - rewrite wf_dict, strings_ok_dict. intros [_ Hwf].
    rewrite Forall_forall in IHd, Hwf |- *. intros kv Hkv.
    destruct (Hwf kv Hkv) as [Hk Hv]. split; [exact Hk|]. now apply IHd.
Qed.

Lemma readable_strict `{FloatConv} o :
  readable CONSTANTS o -> finite_floats o = true -> readable no_constants o.
Proof.
  induction o as [ |b|z|f|s|l IHl|d IHd] using pyobj_ind'; try (intros; assumption).
  - destruct f as [sg|[|]| |sg m ex]; cbn; try discriminate; auto.
  - rewrite !readable_list. cbn [finite_floats]. intros Hwf Hfin.
    rewrite forallb_forall in Hfin. rewrite Forall_forall in IHl, Hwf |- *.
    intros x Hx. apply IHl; auto. apply Hfin. now apply list_elem_of_In.
  - rewrite !readable_dict. cbn [finite_floats]. intros Hwf Hfin.
    rewrite forallb_forall in Hfin. rewrite Forall_forall in IHd, Hwf |- *.
    intros kv Hkv. apply IHd; auto. apply Hfin. now apply list_elem_of_In.
Qed.

(** The encoding of what [json.loads] returned is JSON in the strict sense
    when it holds no NaN and no infinity. *)
Theorem dumps_loads_strict `{FloatConvLaws} indent s v :
  json_loads s = Some v -> finite_floats v = true ->
  json_loads_strict (json_dumps indent v) = Some (canon v).
Proof.
  intros Hj Hfin. apply loads_dumps_canon, readable_strict; [|exact Hfin].
  now apply (json_loads_readable s).
Qed.

(** ** Enough fuel: the result does not depend on it *)

Section Fuel.
Variables scan1 scan2 : pystr -> option (pyobj * pystr).
Variable L : nat.
Hypothesis agree : forall t, (length t <= L)%nat -> scan1 t = scan2 t.
Hypothesis shrink : forall t v r, scan1 t = Some (v, r) -> (length r < length t)%nat.

Lemma JSONArray_loop_fuel n1 :
  forall n2 t, (length t <= L)%nat -> (length t < n1)%nat -> (length t < n2)%nat ->
  JSONArray_loop scan1 n1 t = JSONArray_loop scan2 n2 t.
Proof.
  induction n1 as [|n1 IH]; intros n2 t HL H1 H2; [inversion H1|].
  destruct n2 as [|n2]; [inversion H2|]. cbn [JSONArray_loop].
  rewrite <- (agree t HL).
  destruct (scan1 t) as [[value r0]|] eqn:Es; [|reflexivity].
  apply shrink in Es.
  destruct (skip_ws r0) as [|c r'] eqn:Ew; [reflexivity|].
  apply suffix_skip_ws_cons, suffix_length in Ew.
  destruct (c =? 93); [reflexivity|]. destruct (c =? 44); [|reflexivity].
  pose proof (skip_ws_length r') as Hw.
  rewrite (IH n2); [reflexivity | lia | lia | lia].
Qed.

Lemma JSONArray_fuel n1 n2 t :
  (length t <= L)%nat -> (length t < n1)%nat -> (length t < n2)%nat ->
  JSONArray scan1 n1 t = JSONArray scan2 n2 t.
Proof.
  intros HL H1 H2. unfold JSONArray. pose proof (skip_ws_length t) as Hw.
  destruct (skip_ws t) as [|c r]; [reflexivity|].
  destruct (c =? 93); [reflexivity|].
  rewrite (JSONArray_loop_fuel n1 n2); [reflexivity | lia | lia | lia].
Qed.

Lemma JSONObject_loop_fuel n1 :
  forall n2 t, (length t <= L)%nat -> (length t < n1)%nat -> (length t < n2)%nat ->
  JSONObject_loop scan1 n1 t = JSONObject_loop scan2 n2 t.
Proof.
  induction n1 as [|n1 IH]; intros n2 t HL H1 H2; [inversion H1|].
  destruct n2 as [|n2]; [inversion H2|]. cbn [JSONObject_loop].
  destruct (scanstring t) as [[key r0]|] eqn:Ek; [|reflexivity].
  destruct (scanstring_sound _ _ _ Ek) as (_ & Hk & _).
  destruct (skip_ws r0) as [|c r1] eqn:Ew0; [reflexivity|].
  apply suffix_skip_ws_cons, suffix_length in Ew0.
  destruct (c =? 58); [|reflexivity].
  pose proof (skip_ws_length r1) as Hw1.
  rewrite <- (agree (skip_ws r1)) by lia.
  destruct (scan1 (skip_ws r1)) as [[value r2]|] eqn:Es; [|reflexivity].
  apply shrink in Es.
  destruct (skip_ws r2) as [|c2 r3] eqn:Ew2; [reflexivity|].
  apply suffix_skip_ws_cons, suffix_length in Ew2.
  destruct (c2 =? 125); [reflexivity|]. destruct (c2 =? 44); [|reflexivity].
  destruct (skip_ws r3) as [|q r4] eqn:Ew3; [reflexivity|].
  apply suffix_skip_ws_cons, suffix_length in Ew3.
  destruct (q =? 34); [|reflexivity].
  rewrite (IH n2); [reflexivity | lia | lia | lia].
Qed.

Lemma JSONObject_fuel n1 n2 t :
  (length t <= L)%nat -> (length t < n1)%nat -> (length t < n2)%nat ->
  JSONObject scan1 n1 t = JSONObject scan2 n2 t.
Proof.
  intros HL H1 H2. unfold JSONObject.
  destruct (skip_ws t) as [|c r] eqn:Ew; [reflexivity|].
  apply suffix_skip_ws_cons, suffix_length in Ew.
  destruct (c =? 125); [reflexivity|]. destruct (c =? 34); [|reflexivity].
  rewrite (JSONObject_loop_fuel n1 n2); [reflexivity | lia | lia | lia].
Qed.
End Fuel.

(** Beyond the length of the text, more fuel changes nothing: a [None] of
    [json_loads] is a rejection, never an exhausted bound. *)
Theorem scan_once_fuel `{FloatConv} pc f1 :
  forall f2 s, (length s < f1)%nat -> (length s < f2)%nat ->
  scan_once pc f1 s = scan_once pc f2 s.
Proof.
  induction f1 as [|f1 IH]; intros f2 s H1 H2; [inversion H1|].
  destruct f2 as [|f2]; [inversion H2|]. cbn [scan_once].
  destruct s as [|c t]; [reflexivity|]. cbn [length] in H1, H2.
  destruct (c =? 34); [reflexivity|].
  assert (Hagree : forall t', (length t' <= length t)%nat ->
            scan_once pc f1 t' = scan_once pc f2 t')
    by (intros t' Ht'; apply IH; lia).
  assert (Hshrink : forall t' v r, scan_once pc f1 t' = Some (v, r) ->
            (length r < length t')%nat)
    by (intros t' v r Hs; now apply scan_once_shrinks in Hs).
  destruct (c =? 123).
  { apply (JSONObject_fuel _ _ (length t)); auto; lia. }
  destruct (c =? 91).
  { apply (JSONArray_fuel _ _ (length t)); auto; lia. }
  reflexivity.
Qed.

(** ** The decoder kept to JSON accepts less *)

Section Stricter.
Variables scan1 scan2 : pystr -> option (pyobj * pystr).
Hypothesis more : forall s x, scan1 s = Some x -> scan2 s = Some x.




End Stricter.




(** * Part III: the script *)

(** ** The four ways a run can go *)

Section Runs.
Context `{FloatConv}.
Variables (e : env) (w : world).

Lemma main_no_response :
  server e (the_request e) = None ->
  main e w = (Raised RequestException, after_post e w).
Proof.
  intros Hs. unfold main, mbind, prog_bind, input, getpass, requests_post.
  cbn [stdout files posted opened write_stdout].
  fold (the_request e). now rewrite Hs.
Qed.

Lemma main_bad_json r :
  server e (the_request e) = Some r ->
  status_code r = 200%Z -> json_loads (text r) = None ->
  main e w = (Raised JSONDecodeError,
              write_stdout (msg_retrieved ++ [10]) (after_post e w)).
Proof.
  intros Hs Hst Hj. unfold main, mbind, prog_bind, input, getpass, requests_post.
  cbn [stdout files posted opened write_stdout].
  fold (the_request e). rewrite Hs, Hst. cbn [Z.eqb Pos.eqb].
  unfold print, response_json. now rewrite Hj.
Qed.

Lemma main_success r token_data :
  server e (the_request e) = Some r ->
  status_code r = 200%Z -> json_loads (text r) = Some token_data ->
  main e w =
  (Returned tt,
   {| stdout := stdout w ++ py "Enter username (email): "
                ++ (msg_retrieved ++ [10])
                ++ (json_dumps 7 token_data ++ [10])
                ++ (msg_saved ++ [10]);
      files := <[token_file := json_dumps 2 token_data]> (files w);
      posted := posted w ++ [the_request e];
      opened := opened w ++ [token_file] |}).
Proof.
  intros Hs Hst Hj. unfold main, mbind, prog_bind, input, getpass, requests_post.
  cbn [stdout files posted opened write_stdout].
  fold (the_request e). rewrite Hs, Hst. cbn [Z.eqb Pos.eqb].
  unfold print, response_json. rewrite Hj.
  unfold open_w, json_dump, file_write, write_stdout.
  cbn [stdout files posted opened].
  rewrite lookup_insert_eq. cbn [default app]. rewrite insert_insert_eq.
  rewrite <- !app_assoc. reflexivity.
Qed.

Lemma main_failure r :
  server e (the_request e) = Some r ->
  status_code r <> 200%Z ->
  main e w =
  (Returned tt,
   write_stdout ((msg_failed (status_code r) ++ [10]) ++ failure_report r ++ [10])
     (after_post e w)).
Proof.
  intros Hs Hst. unfold main, mbind, prog_bind, input, getpass, requests_post.
  cbn [stdout files posted opened write_stdout].
  fold (the_request e). rewrite Hs.
  destruct (Z.eqb_spec (status_code r) 200) as [|_]; [contradiction|].
  unfold print, try_except, response_json, failure_report, write_stdout, after_post.
  cbn [stdout files posted opened].
  destruct (json_loads (text r)); cbn [stdout files posted opened];
    rewrite <- !app_assoc; reflexivity.
Qed.
End Runs.

(** ** What every run does, whatever the answer *)

Section EveryRun.
Context `{FloatConv}.
Variables (e : env) (w : world).

Lemma main_cases :
  (server e (the_request e) = None)
  \/ (exists r, server e (the_request e) = Some r /\ status_code r <> 200%Z)
  \/ (exists r, server e (the_request e) = Some r /\ status_code r = 200%Z
                /\ json_loads (text r) = None)
  \/ (exists r v, server e (the_request e) = Some r /\ status_code r = 200%Z
                  /\ json_loads (text r) = Some v).
Proof.
  destruct (server e (the_request e)) as [r|]; [|now left]. right.
  destruct (Z.eq_dec (status_code r) 200%Z) as [Hst|Hst]; [|left; eauto]. right.
  destruct (json_loads (text r)) as [v|] eqn:Hj; [right|left]; eauto.
Qed.

Lemma main_posted : posted (snd (main e w)) = posted w ++ [the_request e].
Proof.
  destruct main_cases as [Hs|[(r & Hs & Hst)|[(r & Hs & Hst & Hj)|(r & v & Hs & Hst & Hj)]]].
  - now rewrite main_no_response.
  - now rewrite (main_failure e w r).
  - now rewrite (main_bad_json e w r).
  - now rewrite (main_success e w r v).
Qed.

Lemma main_stdout :
  stdout (snd (main e w)) = stdout w ++ printed (server e (the_request e)).
Proof.
  unfold printed.
  destruct main_cases as [Hs|[(r & Hs & Hst)|[(r & Hs & Hst & Hj)|(r & v & Hs & Hst & Hj)]]].
  - rewrite main_no_response, Hs by assumption. cbn [snd stdout after_post].
    now rewrite app_nil_r.
  - rewrite (main_failure e w r), Hs by assumption.
    destruct (Z.eqb_spec (status_code r) 200%Z); [contradiction|].
    cbn [snd stdout after_post write_stdout]. now rewrite <- !app_assoc.
  - rewrite (main_bad_json e w r), Hs, Hst, Hj by assumption.
    cbn [snd stdout after_post write_stdout Z.eqb Pos.eqb].
    now rewrite <- !app_assoc, app_nil_r.
  - rewrite (main_success e w r v), Hs, Hst, Hj by assumption.
    cbn [snd stdout Z.eqb Pos.eqb]. now rewrite <- !app_assoc.
Qed.
End EveryRun.

(** ** The request *)

(** C2: whatever username and password the operator types, the run makes
    one call to [requests.post], and the form body of that call is exactly
    the six fields resource (the fixed target), client_id (the fixed Azure
    PowerShell client identifier), grant_type [password], username (what was
    typed at the first prompt), password (what was typed at the second) and
    scope [openid]. *)
Theorem C2_request_body `{FloatConv} (e : env) (w : world) :
  exists rq,
    posted (snd (main e w)) = posted w ++ [rq]
    /\ req_data rq =
       [ (py "resource", py "https://management.azure.com");
         (py "client_id", py "1b730954-1685-4b74-9bfd-dac224a7b894");
         (py "grant_type", py "password");
         (py "username", typed_username e);
         (py "password", typed_password e);
         (py "scope", py "openid") ].
Proof. exists (the_request e). split; [apply main_posted | reflexivity]. Qed.

(** C6: whatever the input, the one request carries exactly two headers: the
    User-Agent of a PlayStation 4, a constant of the script, and the
    Content-Type of a URL-encoded form. *)
Theorem C6_request_headers `{FloatConv} (e : env) (w : world) :
  exists rq,
    posted (snd (main e w)) = posted w ++ [rq]
    /\ req_headers rq =
       [ (py "User-Agent",
          py "Mozilla/5.0 (PlayStation 4 3.11) AppleWebKit/537.73 (KHTML, like Gecko)");
         (py "Content-Type", py "application/x-www-form-urlencoded") ].
Proof. exists (the_request e). split; [apply main_posted | reflexivity]. Qed.

(** ** Standard output *)

(** C5: two runs that get the same answer to their request print the same
    thing, whatever was typed at the prompts: nothing of the password
    reaches standard output except through the answer of the service. *)
Theorem C5_password_not_printed `{FloatConv} (e1 e2 : env) (w : world) :
  server e1 (the_request e1) = server e2 (the_request e2) ->
  stdout (snd (main e1 w)) = stdout (snd (main e2 w)).
Proof. intros Hs. now rewrite !main_stdout, Hs. Qed.

(** ** The success branch *)


Lemma main_not_written `{FloatConv} (e : env) (w : world) (r : response) :
  server e (the_request e) = Some r ->
  status_code r <> 200%Z \/ json_loads (text r) = None ->
  opened (snd (main e w)) = opened w /\ files (snd (main e w)) = files w.
Proof.
  intros Hs [Hst|Hj].
  - now rewrite (main_failure e w r Hs Hst).
  - destruct (Z.eq_dec (status_code r) 200%Z) as [Hst|Hst].
    + now rewrite (main_bad_json e w r Hs Hst Hj).
    + now rewrite (main_failure e w r Hs Hst).
Qed.

Lemma main_written_iff `{FloatConv} (e : env) (w : world) (r : response) :
  server e (the_request e) = Some r ->
  opened (snd (main e w)) = opened w ++ [token_file]
  <-> status_code r = 200%Z /\ json_loads (text r) <> None.
Proof.
  intros Hs. split.
  - intros Hop.
    destruct (Z.eq_dec (status_code r) 200%Z) as [Hst|Hst];
      [destruct (json_loads (text r)) eqn:Hj; [now split|]|].
    all: destruct (main_not_written e w r Hs) as [Hno _]; [auto|];
      rewrite Hno in Hop.
    all: apply (f_equal length) in Hop; rewrite length_app in Hop;
      cbn [length] in Hop; lia.
  - intros [Hst Hj]. destruct (json_loads (text r)) as [v|] eqn:Hv; [|contradiction].
    now rewrite (main_success e w r v Hs Hst Hv).
Qed.


(** ** What is written and printed reads back *)

Lemma wf_strict `{FloatConv} o :
  wf CONSTANTS o -> finite_floats o = true -> wf no_constants o.
Proof.
  induction o as [ |b|z|f|s|l IHl|d IHd] using pyobj_ind'; try (intros; assumption).
  - destruct f as [sg|[|]| |sg m ex]; cbn; try discriminate; auto.
  - rewrite !wf_list. cbn [finite_floats]. intros Hwf Hfin.
    rewrite forallb_forall in Hfin. rewrite Forall_forall in IHl, Hwf |- *.
    intros x Hx. apply IHl; auto. apply Hfin. now apply list_elem_of_In.
  - rewrite !wf_dict. cbn [finite_floats]. intros [Hnd Hwf] Hfin. split; [exact Hnd|].
    rewrite forallb_forall in Hfin. rewrite Forall_forall in IHd, Hwf |- *.
    intros kv Hkv. destruct (Hwf kv Hkv) as [Hk Hv]. split; [exact Hk|].
    apply IHd; auto. apply Hfin. now apply list_elem_of_In.
Qed.

(** C9, as the code has it: whenever token_scope.json is written, its
    content is the serialization with indent 2 of the object parsed from the
    body, keys in the order the parser returned them; and that content is
    JSON in the strict sense (no NaN, no Infinity) when the parsed object
    holds no such float. *)
Theorem C9_file_is_reserialization `{FloatConvLaws}
    (e : env) (w : world) (r : response) :
  server e (the_request e) = Some r ->
  opened (snd (main e w)) = opened w ++ [token_file] ->
  exists token_data,
    json_loads (text r) = Some token_data
    /\ files (snd (main e w)) !! token_file = Some (json_dumps 2 token_data)
    /\ (finite_floats token_data = true ->
        json_loads_strict (json_dumps 2 token_data) <> None).
Proof.
  intros Hs Hop.
  destruct (proj1 (main_written_iff e w r Hs) Hop) as [Hst Hj].
  destruct (json_loads (text r)) as [v|] eqn:Hv; [|contradiction].
  exists v. split; [reflexivity|]. split.
  - rewrite (main_success e w r v Hs Hst Hv). apply lookup_insert_eq.
  - intros Hfin. now rewrite (dumps_loads_strict 2 (text r) v Hv Hfin).
Qed.

(** C10, as the code has it: on the success path what is printed (indent
    7) and what is saved (indent 2) are two serializations of the object
    parsed from the body; and [json.loads] reads each of them back as that
    same object when no string of the object, key or value, holds a high
    surrogate directly followed by a low one, which is so for every decoded
    body. *)
Theorem C10_both_read_back `{FloatConvLaws}
    (e : env) (w : world) (r : response) (token_data : pyobj) :
  server e (the_request e) = Some r ->
  status_code r = 200%Z ->
  json_loads (text r) = Some token_data ->
  stdout (snd (main e w)) =
    stdout w ++ py "Enter username (email): " ++ (msg_retrieved ++ [10])
    ++ (json_dumps 7 token_data ++ [10]) ++ (msg_saved ++ [10])
  /\ files (snd (main e w)) !! token_file = Some (json_dumps 2 token_data)
  /\ (strings_ok token_data = true ->
      json_loads (json_dumps 7 token_data) = Some token_data
      /\ json_loads (json_dumps 2 token_data) = Some token_data)
  /\ (text_ok (text r) -> strings_ok token_data = true).
Proof.
  intros Hs Hst Hj.
  rewrite (main_success e w r token_data Hs Hst Hj). cbn [snd stdout files].
  split; [reflexivity|]. split; [apply lookup_insert_eq|]. split.
  - intros Hok. pose proof (json_loads_strings _ _ Hj Hok) as Hwf.
    split; now apply loads_dumps.
  - intros Hok. apply (wf_strings_ok CONSTANTS). now apply (json_loads_wf (text r)).
Qed.

(** C3, as the code has it: on a status 200 whose body parses, the file
    holds the serialization with indent 2 of the parsed body; that is the
    body itself, byte for byte, when the body already is such a
    serialization of a well-formed object. *)
Theorem C3_file_content `{FloatConv} (e : env) (w : world) (r : response) :
  server e (the_request e) = Some r ->
  status_code r = 200%Z ->
  (forall token_data, json_loads (text r) = Some token_data ->
   files (snd (main e w)) !! token_file = Some (json_dumps 2 token_data))
  /\ (forall o, wf CONSTANTS o -> text r = json_dumps 2 o ->
      files (snd (main e w)) !! token_file = Some (text r)).
Proof.
  intros Hs Hst.
  assert (Hfile : forall v, json_loads (text r) = Some v ->
            files (snd (main e w)) !! token_file = Some (json_dumps 2 v)).
  { intros v Hj. rewrite (main_success e w r v Hs Hst Hj). apply lookup_insert_eq. }
  split; [exact Hfile|].
  intros o Hwf Ht. rewrite Ht. apply Hfile. rewrite Ht.
  now apply loads_dumps.
Qed.

(** ** Concrete runs *)

Lemma zero_conv_laws : @FloatConvLaws zero_conv.
Proof. split; intros lex _ _; reflexivity. Qed.


Lemma compact_200_run `{FloatConv} password :
  files (snd (main (answering password compact_200) empty_world)) !! token_file
  = Some ([123; 10; 32; 32; 34; 97; 34; 58; 32; 49; 10; 125]).
Proof.
  rewrite (main_success _ _ compact_200 (PyDict [([97], PyInt 1)]));
    try reflexivity.
Qed.

Lemma nan_200_run `{FloatConv} password :
  files (snd (main (answering password nan_200) empty_world)) !! token_file
  = Some (py "NaN").
Proof.
  rewrite (main_success _ _ nan_200 (PyFloat S754_nan)); reflexivity.
Qed.


(** C3, as stated, fails: the body is a compact JSON object, the file holds
    the same object on three indented lines. *)
Lemma C3_counterexample :
  files (snd (@main zero_conv (answering (py "hunter2") compact_200) empty_world))
    !! token_file
  <> Some (text compact_200).
Proof. rewrite compact_200_run. discriminate. Qed.

(** C9, as stated, fails: the body is the name NaN, which [json.loads]
    takes; the file then holds NaN, which is not JSON. *)
Lemma C9_counterexample :
  files (snd (@main zero_conv (answering (py "hunter2") nan_200) empty_world))
    !! token_file = Some (py "NaN")
  /\ @json_loads_strict zero_conv (py "NaN") = None.
Proof. split; [apply nan_200_run | reflexivity]. Qed.


(** C10, as stated, fails: the body is a JSON string that holds the two
    halves of a surrogate pair as they are; it is parsed as a string of two
    characters, saved as two escapes, and those read back as one
    character, U+10000. *)
Lemma C10_counterexample :
  let e := answering (py "hunter2") pair_200 in
  let token_data := PyStr [0xd800; 0xdc00] in
  status_code pair_200 = 200%Z
  /\ @json_loads zero_conv (text pair_200) = Some token_data
  /\ files (snd (@main zero_conv e empty_world)) !! token_file
     = Some (@json_dumps zero_conv 2 token_data)
  /\ @json_loads zero_conv (@json_dumps zero_conv 2 token_data)
     = Some (PyStr [0x10000])
  /\ @json_loads zero_conv (@json_dumps zero_conv 7 token_data) <> Some token_data.
Proof.
  cbv zeta. split; [reflexivity|]. split; [reflexivity|]. split; [|split].
  - now rewrite (main_success _ _ pair_200 (PyStr [0xd800; 0xdc00])).
  - reflexivity.
  - discriminate.
Qed.

(** ** The theorems at concrete runs *)

Lemma C5_witness :
  let e1 := answering (py "hunter2") plain_401 in
  let e2 := answering (py "correct horse") plain_401 in
  typed_password e1 <> typed_password e2
  /\ server e1 (@the_request zero_conv e1) = server e2 (@the_request zero_conv e2)
  /\ stdout (snd (@main zero_conv e1 empty_world))
     = stdout (snd (@main zero_conv e2 empty_world)).
Proof.
  cbv zeta. split; [discriminate|]. split; [reflexivity|].
  apply (@C5_password_not_printed zero_conv). reflexivity.
Defined.



Lemma C3_witness :
  let e := answering (py "hunter2") compact_200 in
  server e (@the_request zero_conv e) = Some compact_200
  /\ status_code compact_200 = 200%Z
  /\ @json_loads zero_conv (text compact_200) = Some (PyDict [([97], PyInt 1)])
  /\ files (snd (@main zero_conv e empty_world)) !! token_file
     = Some (@json_dumps zero_conv 2 (PyDict [([97], PyInt 1)])).
Proof.
  cbv zeta. split; [reflexivity|]. split; [reflexivity|]. split; [reflexivity|].
  exact (proj1 (@C3_file_content zero_conv
                  (answering (py "hunter2") compact_200) empty_world
                  compact_200 eq_refl eq_refl) _ eq_refl).
Defined.

Lemma compact_text_ok : text_ok (text compact_200).
Proof. repeat (constructor; [reflexivity|]). constructor. Defined.

Lemma C9_witness :
  let e := answering (py "hunter2") compact_200 in
  server e (@the_request zero_conv e) = Some compact_200
  /\ opened (snd (@main zero_conv e empty_world)) = opened empty_world ++ [token_file]
  /\ exists token_data,
       @json_loads zero_conv (text compact_200) = Some token_data
       /\ files (snd (@main zero_conv e empty_world)) !! token_file
          = Some (@json_dumps zero_conv 2 token_data)
       /\ (finite_floats token_data = true ->
           @json_loads_strict zero_conv (@json_dumps zero_conv 2 token_data) <> None).
Proof.
  cbv zeta. split; [reflexivity|]. split; [reflexivity|].
  exact (@C9_file_is_reserialization zero_conv zero_conv_laws
           (answering (py "hunter2") compact_200) empty_world compact_200
           eq_refl eq_refl).
Defined.

Lemma C10_witness :
  let e := answering (py "hunter2") compact_200 in
  let token_data := PyDict [([97], PyInt 1)] in
  server e (@the_request zero_conv e) = Some compact_200
  /\ status_code compact_200 = 200%Z
  /\ @json_loads zero_conv (text compact_200) = Some token_data
  /\ strings_ok token_data = true
  /\ @json_loads zero_conv (@json_dumps zero_conv 7 token_data) = Some token_data
  /\ @json_loads zero_conv (@json_dumps zero_conv 2 token_data) = Some token_data.
Proof.
  cbv zeta. split; [reflexivity|]. split; [reflexivity|].
  split; [reflexivity|]. split; [reflexivity|].
  exact (proj1 (proj2 (proj2 (@C10_both_read_back zero_conv zero_conv_laws
           (answering (py "hunter2") compact_200) empty_world compact_200
           (PyDict [([97], PyInt 1)]) eq_refl eq_refl eq_refl))) eq_refl).
Defined.

(** * Part IV: more of the script *)

(** ** The runs the service does not answer, and how a run ends *)

(** X1: when [requests.post] raises (no response at all), the exception
    leaves the script at once: only the prompt was printed, and no file is
    opened or changed. *)
Theorem X1_no_response `{FloatConv} (e : env) (w : world) :
  server e (the_request e) = None ->
  fst (main e w) = Raised RequestException
  /\ stdout (snd (main e w)) = stdout w ++ py "Enter username (email): "
  /\ files (snd (main e w)) = files w
  /\ opened (snd (main e w)) = opened w.
Proof. intros Hs. now rewrite (main_no_response e w Hs). Qed.

Lemma X1_witness :
  let e := unreachable (py "hunter2") in
  server e (@the_request zero_conv e) = None
  /\ fst (@main zero_conv e empty_world) = Raised RequestException.
Proof.
  cbv zeta. split; [reflexivity|].
  exact (proj1 (@X1_no_response zero_conv (unreachable (py "hunter2"))
                  empty_world eq_refl)).
Defined.

(** ** The files *)

(** X3: a run never touches a file other than token_scope.json. *)
Theorem X3_other_files_untouched `{FloatConv} (e : env) (w : world) (name : pystr) :
  name <> token_file ->
  files (snd (main e w)) !! name = files w !! name.
Proof.
  intros Hne.
  destruct (main_cases e)
    as [Hs|[(r & Hs & Hst)|[(r & Hs & Hst & Hj)|(r & v & Hs & Hst & Hj)]]].
  - now rewrite (main_no_response e w Hs).
  - now rewrite (main_failure e w r Hs Hst).
  - now rewrite (main_bad_json e w r Hs Hst Hj).
  - rewrite (main_success e w r v Hs Hst Hj). cbn [snd files].
    now apply lookup_insert_ne.
Qed.

Lemma X3_witness :
  py "notes.txt" <> token_file
  /\ files (snd (@main zero_conv (answering (py "hunter2") compact_200)
                   {| stdout := []; files := {[ py "notes.txt" := py "keep" ]};
                      posted := []; opened := [] |}))
       !! py "notes.txt"
     = Some (py "keep").
Proof.
  split; [discriminate|].
  rewrite (@X3_other_files_untouched zero_conv); [reflexivity | discriminate].
Defined.

(** X4: a second run with the same operator and service leaves the files as
    the first run left them: the file is overwritten with the same content,
    or not written either time. *)
Theorem X4_second_run_same_files `{FloatConv} (e : env) (w : world) :
  files (snd (main e (snd (main e w)))) = files (snd (main e w)).
Proof.
  destruct (main_cases e)
    as [Hs|[(r & Hs & Hst)|[(r & Hs & Hst & Hj)|(r & v & Hs & Hst & Hj)]]].
  - now rewrite !(main_no_response e _ Hs).
  - now rewrite !(main_failure e _ r Hs Hst).
  - now rewrite !(main_bad_json e _ r Hs Hst Hj).
  - rewrite !(main_success e _ r v Hs Hst Hj). cbn [snd files].
    apply insert_insert_eq.
Qed.

(** X6: what a run leaves on disk depends on what was typed only through
    the answer of the service: two runs that get the same answer open the
    same files and leave the same contents, whatever the password. *)
Theorem X6_password_not_saved `{FloatConv} (e1 e2 : env) (w : world) :
  server e1 (the_request e1) = server e2 (the_request e2) ->
  files (snd (main e1 w)) = files (snd (main e2 w))
  /\ opened (snd (main e1 w)) = opened (snd (main e2 w)).
Proof.
  intros Hsame.
  destruct (main_cases e1)
    as [Hs|[(r & Hs & Hst)|[(r & Hs & Hst & Hj)|(r & v & Hs & Hst & Hj)]]];
    pose proof Hs as Hs2; rewrite Hsame in Hs2.
  - now rewrite (main_no_response e1 w Hs), (main_no_response e2 w Hs2).
  - now rewrite (main_failure e1 w r Hs Hst), (main_failure e2 w r Hs2 Hst).
  - now rewrite (main_bad_json e1 w r Hs Hst Hj), (main_bad_json e2 w r Hs2 Hst Hj).
  - now rewrite (main_success e1 w r v Hs Hst Hj), (main_success e2 w r v Hs2 Hst Hj).
Qed.

Lemma X6_witness :
  let e1 := answering (py "hunter2") compact_200 in
  let e2 := answering (py "correct horse") compact_200 in
  typed_password e1 <> typed_password e2
  /\ server e1 (@the_request zero_conv e1) = server e2 (@the_request zero_conv e2)
  /\ files (snd (@main zero_conv e1 empty_world))
     = files (snd (@main zero_conv e2 empty_world)).
Proof.
  cbv zeta. split; [discriminate|]. split; [reflexivity|].
  exact (proj1 (@X6_password_not_saved zero_conv
                  (answering (py "hunter2") compact_200)
                  (answering (py "correct horse") compact_200)
                  empty_world eq_refl)).
Defined.

(** ** What is printed when *)

(** X5: on a 200 whose body is not JSON the line that announces the tokens
    has already been printed when [response.json()] raises: standard output
    ends with the success message although nothing was retrieved. *)
Theorem X5_success_message_first `{FloatConv} (e : env) (w : world) (r : response) :
  server e (the_request e) = Some r ->
  status_code r = 200%Z -> json_loads (text r) = None ->
  stdout (snd (main e w)) =
    stdout w ++ py "Enter username (email): " ++ msg_retrieved ++ [10].
Proof.
  intros Hs Hst Hj. rewrite (main_bad_json e w r Hs Hst Hj).
  cbn [snd stdout write_stdout after_post]. now rewrite <- !app_assoc.
Qed.

Lemma X5_witness :
  let e := answering (py "hunter2") html_200 in
  server e (@the_request zero_conv e) = Some html_200
  /\ status_code html_200 = 200%Z
  /\ @json_loads zero_conv (text html_200) = None
  /\ stdout (snd (@main zero_conv e empty_world)) =
       py "Enter username (email): " ++ msg_retrieved ++ [10].
Proof.
  cbv zeta. split; [reflexivity|]. split; [reflexivity|]. split; [reflexivity|].
  exact (@X5_success_message_first zero_conv (answering (py "hunter2") html_200)
           empty_world html_200 eq_refl eq_refl eq_refl).
Defined.

(** ** Bodies at the edges *)






(** ** What is printed and saved, read again *)

(** X7: on a status other than 200 whose body is JSON, the block printed
    after the failure line is the serialization with indent 2 of the parsed
    error object, and [json.loads] reads it back as that object. *)
Theorem X7_failure_report_reads_back `{FloatConvLaws}
    (e : env) (w : world) (r : response) (error_data : pyobj) :
  server e (the_request e) = Some r ->
  status_code r <> 200%Z ->
  text_ok (text r) ->
  json_loads (text r) = Some error_data ->
  stdout (snd (main e w)) =
    stdout w ++ py "Enter username (email): "
    ++ (msg_failed (status_code r) ++ [10]) ++ json_dumps 2 error_data ++ [10]
  /\ json_loads (json_dumps 2 error_data) = Some error_data.
Proof.
  intros Hs Hst Hok Hj. rewrite (main_failure e w r Hs Hst).
  unfold failure_report. rewrite Hj.
  cbn [snd stdout write_stdout after_post]. rewrite <- !app_assoc.
  split; [reflexivity|]. apply loads_dumps. now apply (json_loads_wf (text r)).
Qed.

Lemma json_401_text_ok : text_ok (text json_401).
Proof. repeat (constructor; [reflexivity|]). constructor. Defined.

Lemma X7_witness :
  let e := answering (py "hunter2") json_401 in
  let error_data := PyDict [([101], PyInt 7)] in
  server e (@the_request zero_conv e) = Some json_401
  /\ status_code json_401 <> 200%Z
  /\ text_ok (text json_401)
  /\ @json_loads zero_conv (text json_401) = Some error_data
  /\ @json_loads zero_conv (@json_dumps zero_conv 2 error_data) = Some error_data.
Proof.
  cbv zeta. split; [reflexivity|]. split; [discriminate|].
  split; [exact json_401_text_ok|]. split; [reflexivity|].
  refine (proj2 (@X7_failure_report_reads_back zero_conv zero_conv_laws
            (answering (py "hunter2") json_401) empty_world json_401
            (PyDict [([101], PyInt 7)]) eq_refl _ json_401_text_ok eq_refl)).
  discriminate.
Defined.

(** X9: the file saved from a decoded body (scalar values only, no
    surrogate) is a fixed point of the script: a later run that is answered,
    with status 200, by the content the earlier run saved, saves that
    content again, byte for byte. *)
Theorem X9_saved_file_fixed_point `{FloatConvLaws}
    (e e' : env) (w w' : world) (r r' : response) (content : pystr) :
  server e (the_request e) = Some r ->
  text_ok (text r) ->
  opened (snd (main e w)) = opened w ++ [token_file] ->
  files (snd (main e w)) !! token_file = Some content ->
  server e' (the_request e') = Some r' ->
  status_code r' = 200%Z ->
  text r' = content ->
  files (snd (main e' w')) !! token_file = Some content.
Proof.
  intros Hs Hok Hop Hfile Hs' Hst' Ht'.
  destruct (proj1 (main_written_iff e w r Hs) Hop) as [Hst Hj].
  destruct (json_loads (text r)) as [v|] eqn:Hv; [|contradiction].
  pose proof (json_loads_wf _ _ Hok Hv) as Hwf.
  rewrite (main_success e w r v Hs Hst Hv) in Hfile. cbn [snd files] in Hfile.
  rewrite lookup_insert_eq in Hfile. injection Hfile as <-.
  assert (Hv' : json_loads (text r') = Some v)
    by (rewrite Ht'; now apply loads_dumps).
  rewrite (main_success e' w' r' v Hs' Hst' Hv'). apply lookup_insert_eq.
Qed.

Lemma X9_witness :
  let e := answering (py "hunter2") compact_200 in
  let content := [123; 10; 32; 32; 34; 97; 34; 58; 32; 49; 10; 125] in
  let r' := {| status_code := 200; text := content |} in
  let e' := answering (py "hunter2") r' in
  text_ok (text compact_200)
  /\ opened (snd (@main zero_conv e empty_world)) = opened empty_world ++ [token_file]
  /\ files (snd (@main zero_conv e empty_world)) !! token_file = Some content
  /\ files (snd (@main zero_conv e' empty_world)) !! token_file = Some content.
Proof.
  cbv zeta. split; [exact compact_text_ok|]. split; [reflexivity|].
  split; [reflexivity|].
  exact (@X9_saved_file_fixed_point zero_conv zero_conv_laws
           (answering (py "hunter2") compact_200)
           (answering (py "hunter2")
              {| status_code := 200;
                 text := [123; 10; 32; 32; 34; 97; 34; 58; 32; 49; 10; 125] |})
           empty_world empty_world compact_200
           {| status_code := 200;
              text := [123; 10; 32; 32; 34; 97; 34; 58; 32; 49; 10; 125] |}
           [123; 10; 32; 32; 34; 97; 34; 58; 32; 49; 10; 125]
           eq_refl compact_text_ok eq_refl eq_refl eq_refl eq_refl eq_refl).
Defined.

(** ** The characters of a serialization *)

Lemma hexdigit_printable n : n < 16 -> printable (hexdigit n) = true.
Proof.
  intros Hn. unfold printable, hexdigit. apply orb_true_iff. right.
  apply andb_true_iff. destruct (N.ltb_spec n 10); split; apply N.leb_le; lia.
Qed.

Lemma u_escape_printable n : Forall (fun c => printable c = true) (u_escape n).
Proof.
  unfold u_escape, hex4.
  repeat (constructor; [first [reflexivity | apply hexdigit_printable, N.mod_lt; lia]|]).
  constructor.
Qed.

Lemma escape_char_printable c : Forall (fun c => printable c = true) (escape_char c).
Proof.
  unfold escape_char.
  repeat (match goal with |- context [N.eqb c ?k] =>
            destruct (N.eqb c k); [repeat constructor|] end).
  destruct ((32 <=? c) && (c <=? 126)) eqn:Hp.
  - constructor; [|constructor]. unfold printable. rewrite Hp. apply orb_true_r.
  - destruct (c <? 0x10000); [apply u_escape_printable|].
    cbv zeta. apply Forall_app; split; apply u_escape_printable.
Qed.

Lemma encode_printable s :
  Forall (fun c => printable c = true) (encode_basestring_ascii s).
Proof.
  unfold encode_basestring_ascii. constructor; [reflexivity|].
  apply Forall_app. split; [|repeat constructor].
  induction s as [|c s IH]; [constructor|]. cbn [flat_map].
  apply Forall_app. split; [apply escape_char_printable | exact IH].
Qed.

Lemma digit_printable c : is_digit c = true -> printable c = true.
Proof.
  unfold is_digit, printable. intros Hc. apply andb_true_iff in Hc as [H1 H2].
  apply N.leb_le in H1, H2. apply orb_true_iff. right.
  apply andb_true_iff. split; apply N.leb_le; lia.
Qed.

Lemma digits_printable d :
  Forall (fun c => is_digit c = true) d -> Forall (fun c => printable c = true) d.
Proof. intros Hd. eapply Forall_impl; [exact Hd|]. apply digit_printable. Qed.

Lemma int_repr_printable z : Forall (fun c => printable c = true) (int_repr z).
Proof.
  unfold int_repr. destruct (Z.to_int z) as [d|d];
    [|constructor; [reflexivity|]]; apply digits_printable, uint_chars_digits.
Qed.

Lemma match_natural_printable t i r :
  match_natural t = Some (i, r) -> Forall (fun c => printable c = true) i.
Proof.
  unfold match_natural. destruct t as [|c t]; [discriminate|].
  destruct (c =? 48); [intros [= <- <-]; now repeat constructor|].
  destruct (is_digit c) eqn:Ec; [|discriminate].
  destruct (span_digits t) as [d r'] eqn:Ed. intros [= <- <-].
  constructor; [now apply digit_printable|].
  apply digits_printable, (span_digits_digits _ _ _ Ed).
Qed.

Lemma match_integer_printable t i r :
  match_integer t = Some (i, r) -> Forall (fun c => printable c = true) i.
Proof.
  unfold match_integer. destruct t as [|c t]; [discriminate|].
  destruct (c =? 45); [|apply match_natural_printable].
  destruct (match_natural t) as [[d r']|] eqn:En; [|discriminate].
  intros [= <- <-]. constructor; [reflexivity|].
  now apply (match_natural_printable _ _ _ En).
Qed.

Lemma match_frac_printable t f r :
  match_frac t = (f, r) -> Forall (fun c => printable c = true) f.
Proof.
  unfold match_frac. destruct t as [|c t]; [intros [= <- _]; constructor|].
  destruct (N.eqb_spec c 46) as [->|_]; [|intros [= <- _]; constructor].
  destruct (span_digits t) as [d r'] eqn:Ed.
  pose proof (span_digits_digits _ _ _ Ed) as Hd.
  destruct d; intros [= <- _]; [constructor|].
  constructor; [reflexivity | now apply digits_printable].
Qed.

Lemma match_exp_printable t e r :
  match_exp t = (e, r) -> Forall (fun c => printable c = true) e.
Proof.
  unfold match_exp. destruct t as [|c t]; [intros [= <- _]; constructor|].
  destruct ((c =? 101) || (c =? 69)) eqn:Ec; [|intros [= <- _]; constructor].
  assert (Hc : printable c = true).
  { apply orb_true_iff in Ec as [Ec|Ec]; apply N.eqb_eq in Ec; now subst c. }
  destruct t as [|c1 t].
  { cbn [span_digits]. intros [= <- _]. constructor. }
  destruct ((c1 =? 45) || (c1 =? 43)) eqn:Es.
  - destruct (span_digits t) as [d r'] eqn:Ed.
    pose proof (span_digits_digits _ _ _ Ed) as Hd.
    destruct d; intros [= <- _]; [constructor|].
    constructor; [exact Hc|]. cbn [app]. constructor.
    + apply orb_true_iff in Es as [Es|Es]; apply N.eqb_eq in Es; now subst c1.
    + now apply digits_printable.
  - destruct (span_digits (c1 :: t)) as [d r'] eqn:Ed.
    pose proof (span_digits_digits _ _ _ Ed) as Hd.
    destruct d; intros [= <- _]; [constructor|].
    constructor; [exact Hc|]. cbn [app]. now apply digits_printable.
Qed.

Lemma float_lexeme_printable s :
  float_lexeme s = true -> Forall (fun c => printable c = true) s.
Proof.
  unfold float_lexeme. intros Hl.
  destruct (match_number s) as [[[[i f] e] r]|] eqn:Hm; [|discriminate].
  rewrite (match_number_split _ _ _ _ _ Hm).
  assert (r = []) as -> by (destruct f, e, r; congruence).
  unfold match_number in Hm.
  destruct (match_integer s) as [[i0 r0]|] eqn:Ei; [|discriminate].
  destruct (match_frac r0) as [f0 r1] eqn:Ef.
  destruct (match_exp r1) as [e0 r2] eqn:Ee.
  injection Hm as <- <- <- _.
  apply Forall_app; split; [now apply (match_integer_printable _ _ _ Ei)|].
  apply Forall_app; split; [now apply (match_frac_printable _ _ _ Ef)|].
  apply Forall_app; split; [now apply (match_exp_printable _ _ _ Ee)|].
  constructor.
Qed.

Lemma spaces_printable n : Forall (fun c => printable c = true) (spaces n).
Proof. induction n; constructor; [reflexivity | exact IHn]. Qed.

Lemma join_printable sep parts :
  Forall (fun c => printable c = true) sep ->
  Forall (Forall (fun c => printable c = true)) parts ->
  Forall (fun c => printable c = true) (join sep parts).
Proof.
  intros Hsep Hparts. induction Hparts as [|p ps Hp Hps IH]; [constructor|].
  destruct ps as [|q ps]; [exact Hp|]. rewrite join_cons2.
  apply Forall_app; split; [exact Hp|]. apply Forall_app; split; assumption.
Qed.

(** On a well-formed object [json.dumps] writes newlines and printable ASCII
    only. *)
Lemma json_dumps_printable `{FloatConv} o :
  wf CONSTANTS o ->
  forall indent level,
    Forall (fun c => printable c = true) (iterencode indent level o).
Proof.
  assert (Hnl : forall indent lv, Forall (fun c => printable c = true)
                                    (newline_indent indent lv)).
  { intros indent lv. constructor; [reflexivity | apply spaces_printable]. }
  assert (Hwrap : forall (a : N) nl body nl' (z : N),
            printable a = true -> printable z = true ->
            Forall (fun c => printable c = true) nl ->
            Forall (fun c => printable c = true) body ->
            Forall (fun c => printable c = true) nl' ->
            Forall (fun c => printable c = true)
              ([a] ++ nl ++ body ++ nl' ++ [z])).
  { intros a nl body nl' z Ha Hz H1 H2 H3. constructor; [exact Ha|].
    apply Forall_app; split; [exact H1|]. apply Forall_app; split; [exact H2|].
    apply Forall_app; split; [exact H3|]. now repeat constructor. }
  induction o as [ |b|z|f|s|l IHl|d IHd] using pyobj_ind';
    intros Hwf indent level.
  - now repeat constructor.
  - destruct b; now repeat constructor.
  - apply int_repr_printable.
  - cbn [iterencode]. rewrite floatstr_cases.
    destruct f as [sg|[|]| |sg m ex]; cbn [wf float_ok] in Hwf;
      try (now repeat constructor);
      apply float_lexeme_printable; tauto.
  - apply encode_printable.
  - apply wf_list in Hwf. destruct l as [|x l]; [now repeat constructor|].
    cbn [iterencode]. cbv zeta.
    change (py "[") with [91]. change (py "]") with [93]. change (py ",") with [44].
    apply Hwrap; try reflexivity; try apply Hnl.
    apply join_printable.
    + constructor; [reflexivity | apply Hnl].
    + apply Forall_map. rewrite Forall_forall in IHl, Hwf |- *.
      intros a Ha. apply IHl; auto.
  - apply wf_dict in Hwf as [_ Hwf]. destruct d as [|kv d]; [now repeat constructor|].
    cbn [iterencode]. cbv zeta.
    change (py "{") with [123]. change (py "}") with [125]. change (py ",") with [44].
    apply Hwrap; try reflexivity; try apply Hnl.
    apply join_printable.
    + constructor; [reflexivity | apply Hnl].
    + apply Forall_map. rewrite Forall_forall in IHd, Hwf |- *.
      intros a Ha. apply Forall_app; split; [apply encode_printable|].
      apply Forall_app; split; [now repeat constructor|].
      apply IHd; auto. now apply Hwf.
Qed.

(** X10: whenever token_scope.json is written, it holds newlines and
    printable ASCII characters only, whatever characters the body holds:
    [json.dump] escapes every other character. *)
Theorem X10_saved_file_printable `{FloatConvLaws}
    (e : env) (w : world) (r : response) :
  server e (the_request e) = Some r ->
  text_ok (text r) ->
  opened (snd (main e w)) = opened w ++ [token_file] ->
  exists content,
    files (snd (main e w)) !! token_file = Some content
    /\ Forall (fun c => printable c = true) content.
Proof.
  intros Hs Hok Hop.
  destruct (proj1 (main_written_iff e w r Hs) Hop) as [Hst Hj].
  destruct (json_loads (text r)) as [v|] eqn:Hv; [|contradiction].
  exists (json_dumps 2 v). split.
  - rewrite (main_success e w r v Hs Hst Hv). apply lookup_insert_eq.
  - apply json_dumps_printable. now apply (json_loads_wf (text r)).
Qed.

Lemma accent_text_ok : text_ok (text accent_200).
Proof. repeat (constructor; [reflexivity|]). constructor. Defined.

Lemma X10_witness :
  let e := answering (py "hunter2") accent_200 in
  server e (@the_request zero_conv e) = Some accent_200
  /\ text_ok (text accent_200)
  /\ opened (snd (@main zero_conv e empty_world)) = opened empty_world ++ [token_file]
  /\ exists content,
       files (snd (@main zero_conv e empty_world)) !! token_file = Some content
       /\ Forall (fun c => printable c = true) content.
Proof.
  cbv zeta. split; [reflexivity|]. split; [exact accent_text_ok|].
  split; [reflexivity|].
  exact (@X10_saved_file_printable zero_conv zero_conv_laws
           (answering (py "hunter2") accent_200) empty_world accent_200
           eq_refl accent_text_ok eq_refl).
Defined.

(** ** Dictionaries read from a body *)

Lemma unique_keys_list l : unique_keys (PyList l) <-> Forall unique_keys l.
Proof.
  cbn [unique_keys]. induction l as [|x l IH]; cbn [fold_right].
  - split; auto.
  - rewrite IH. split; [intros [? ?]; now constructor | now inversion 1].
Qed.

Lemma unique_keys_dict d :
  unique_keys (PyDict d)
  <-> NoDup (map fst d) /\ Forall (fun kv => unique_keys (snd kv)) d.
Proof.
  cbn [unique_keys]. apply and_iff_compat_l.
  induction d as [|kv d IH]; cbn [fold_right].
  - split; auto.
  - rewrite IH. split; [intros [? ?]; now constructor | now inversion 1].
Qed.

(** X11: the object that [response.json()] returns for a decoded body has
    no key twice in any of its dictionaries, at any depth, whatever keys the
    body repeats. *)
Theorem X11_parsed_keys_unique `{FloatConv} (s : pystr) (o : pyobj) :
  text_ok s -> json_loads s = Some o -> unique_keys o.
Proof.
  unfold json_loads, json_loads_with. intros Hok.
  destruct (match s with [] => false | c :: _ => c =? 65279 end); [discriminate|].
  destruct (scan_once CONSTANTS (S (length (skip_ws s))) (skip_ws s))
    as [[obj r]|] eqn:Es; [|discriminate].
  destruct (skip_ws r); [|discriminate]. intros [= <-].
  assert (Hinv : scanner_sound unique_keys
                   (scan_once CONSTANTS (S (length (skip_ws s))))).
  { apply (scan_once_inv CONSTANTS text_ok (fun _ => True)); try (intros; exact I).
    - exact text_ok_suffix.
    - intros l Hl. now apply unique_keys_list.
    - intros d Hnd Hd. apply unique_keys_dict. split; [exact Hnd|].
      eapply Forall_impl; [exact Hd|]. now intros kv [_ ?]. }
  apply (Hinv _ _ _ Es).
  apply (text_ok_suffix _ s); [apply skip_ws_suffix | exact Hok].
Qed.

Lemma X11_witness :
  let s := [123; 34; 97; 34; 58; 49; 44; 34; 97; 34; 58; 50; 125] in
  text_ok s
  /\ @json_loads zero_conv s = Some (PyDict [([97], PyInt 2)])
  /\ unique_keys (PyDict [([97], PyInt 2)]).
Proof.
  cbv zeta.
  assert (Hok : text_ok [123; 34; 97; 34; 58; 49; 44; 34; 97; 34; 58; 50; 125])
    by (repeat (constructor; [reflexivity|]); constructor).
  split; [exact Hok|]. split; [reflexivity|].
  exact (@X11_parsed_keys_unique zero_conv _ _ Hok eq_refl).
Defined.

Lemma dict_get_set d k v k' :
  dict_get (dict_set d k v) k' = if decide (k' = k) then Some v else dict_get d k'.
Proof.
  induction d as [|[k0 v0] d IH]; cbn [dict_set dict_get].
  - reflexivity.
  - destruct (decide (k = k0)) as [->|Hne]; cbn [dict_get].
    + destruct (decide (k' = k0)); reflexivity.
    + rewrite IH. destruct (decide (k' = k0)) as [->|]; [|reflexivity].
      destruct (decide (k0 = k)); [congruence | reflexivity].
Qed.

Lemma dict_get_app d d' k :
  dict_get (d ++ d') k
  = match dict_get d k with Some v => Some v | None => dict_get d' k end.
Proof.
  induction d as [|[k0 v0] d IH]; cbn [app dict_get]; [reflexivity|].
  destruct (decide (k = k0)); [reflexivity | exact IH].
Qed.

(** X12: in the dictionary built from the pairs of a JSON object, a key maps
    to the value of its last pair: of two pairs with the same key the later
    one wins. *)
Theorem X12_last_pair_wins (pairs : list (pystr * pyobj)) (k : pystr) :
  dict_get (dict_of_pairs pairs) k = dict_get (reverse pairs) k.
Proof.
  unfold dict_of_pairs.
  enough (Hgen : forall acc,
            dict_get (fold_left (fun d kv => dict_set d (fst kv) (snd kv)) pairs acc) k
            = match dict_get (reverse pairs) k with
              | Some v => Some v
              | None => dict_get acc k
              end).
  { rewrite Hgen. now destruct (dict_get (reverse pairs) k). }
  induction pairs as [|[k0 v0] pairs IH]; intros acc; cbn [fold_left fst snd].
  - reflexivity.
  - rewrite IH, reverse_cons, dict_get_app, dict_get_set. cbn [dict_get].
    destruct (dict_get (reverse pairs) k); [reflexivity|].
    destruct (decide (k = k0)); reflexivity.
Qed.

(** ** White space in front of a body *)

Lemma scan_once_bom `{FloatConv} pc f t : scan_once pc f (0xfeff :: t) = None.
Proof.
  destruct f as [|f]; [reflexivity|]. cbn [scan_once N.eqb Pos.eqb].
  eval_py. rewrite !strip_prefix_ne by discriminate. reflexivity.
Qed.

Lemma skip_ws_app_blank ws s :
  Forall (fun c => is_ws c = true) ws -> skip_ws (ws ++ s) = skip_ws s.
Proof. induction 1 as [|c ws Hc _ IH]; [reflexivity|]. cbn. now rewrite Hc. Qed.

(** X13: white space in front of a body changes nothing to what
    [response.json()] returns or refuses. *)
Theorem X13_leading_white_space `{FloatConv} (ws s : pystr) :
  Forall (fun c => is_ws c = true) ws ->
  json_loads (ws ++ s) = json_loads s.
Proof.
  intros Hws. destruct ws as [|c ws]; [reflexivity|].
  unfold json_loads, json_loads_with.
  rewrite (skip_ws_app_blank _ s Hws). apply Forall_cons in Hws as [Hc _].
  cbn [app]. destruct (N.eqb_spec c 65279) as [->|_]; [discriminate Hc|].
  destruct s as [|c0 t]; [reflexivity|].
  destruct (N.eqb_spec c0 65279) as [->|_]; [|reflexivity].
  cbn [skip_ws is_ws N.eqb Pos.eqb orb]. now rewrite scan_once_bom.
Qed.

Lemma X13_witness :
  Forall (fun c => is_ws c = true) [10; 32]
  /\ @json_loads zero_conv ([10; 32] ++ text compact_200)
     = @json_loads zero_conv (text compact_200).
Proof.
  assert (Hws : Forall (fun c => is_ws c = true) [10; 32])
    by (repeat (constructor; [reflexivity|]); constructor).
  split; [exact Hws|]. exact (@X13_leading_white_space zero_conv _ _ Hws).
Defined.

(** * Part V: the script on a host that may fail it *)

(** ** The two models agree on a host that fails nothing *)

Lemma forallb_all {A} (l : list A) : forallb (fun _ => true) l = true.
Proof. now induction l. Qed.

Lemma write_stdout_app a b w :
  write_stdout b (write_stdout a w) = write_stdout (a ++ b) w.
Proof. unfold write_stdout. cbn [stdout files posted opened]. now rewrite app_assoc. Qed.

Lemma print_on_ok h s e w :
  forallb (encodes h) s = true -> encodes h 10 = true ->
  print_on h s e w = (Returned tt, write_stdout (s ++ [10]) w).
Proof.
  intros Hs Hn. unfold print_on, mbind, prog_bind, stdout_write.
  rewrite Hs. cbn [forallb]. rewrite Hn. cbn [andb].
  now rewrite write_stdout_app.
Qed.

Lemma print_on_refused h s e w :
  forallb (encodes h) s = false ->
  print_on h s e w = (Raised UnicodeEncodeError, w).
Proof.
  intros Hs. unfold print_on, mbind, prog_bind, stdout_write. now rewrite Hs.
Qed.

Lemma print_cooperative s e w : print_on cooperative s e w = print s e w.
Proof. apply print_on_ok; [apply forallb_all | reflexivity]. Qed.

(** [main] is [script] on a host that fails nothing. *)
Theorem script_cooperative `{FloatConv} e w : script cooperative e w = main e w.
Proof.
  unfold script, main, mbind, prog_bind, input_on, input, getpass_on, requests_post.
  cbn [cooperative username_given password_given prompt_on_stdout encodes].
  rewrite forallb_all. unfold getpass, try_except, mbind, prog_bind.
  destruct (server e _) as [r|]; [|reflexivity].
  destruct (status_code r =? 200)%Z.
  - rewrite print_cooperative. unfold print. cbv beta iota.
    destruct (response_json r e _) as [[v|x] w1]; [|reflexivity].
    rewrite print_cooperative. unfold print. cbv beta iota.
    unfold open_w_on. cbn [cooperative writable].
    unfold open_w, json_dump, file_write. cbv beta iota.
    apply print_cooperative.
  - rewrite print_cooperative. unfold print. cbv beta iota.
    destruct (response_json r e _) as [[v|x] w1]; rewrite print_cooperative;
      reflexivity.
Qed.

(** ** What standard output can encode *)

Lemma forallb_Forall_true {A} (p : A -> bool) l :
  forallb p l = true <-> Forall (fun x => p x = true) l.
Proof. rewrite forallb_forall, Forall_forall. now setoid_rewrite list_elem_of_In. Qed.

Lemma printable_ascii c : printable c = true -> c < 128.
Proof.
  unfold printable. intros Hc. apply orb_true_iff in Hc as [Hc|Hc].
  - apply N.eqb_eq in Hc. lia.
  - apply andb_true_iff in Hc as [_ Hc]. apply N.leb_le in Hc. lia.
Qed.

Lemma encodes_printable h s :
  (forall c, c < 128 -> encodes h c = true) ->
  Forall (fun c => printable c = true) s -> forallb (encodes h) s = true.
Proof.
  intros Ha Hs. apply forallb_Forall_true. eapply Forall_impl; [exact Hs|].
  intros c Hc. now apply Ha, printable_ascii.
Qed.

Lemma encodes_literal h s :
  (forall c, c < 128 -> encodes h c = true) ->
  forallb (fun c => c <? 128) s = true -> forallb (encodes h) s = true.
Proof.
  intros Ha Hs. apply forallb_Forall_true. apply forallb_Forall_true in Hs.
  eapply Forall_impl; [exact Hs|]. intros c Hc. now apply Ha, N.ltb_lt.
Qed.

Lemma encodes_msg_failed h status :
  (forall c, c < 128 -> encodes h c = true) -> encodes h 0x274c = true ->
  forallb (encodes h) (msg_failed status) = true.
Proof.
  intros Ha Hm. unfold msg_failed. rewrite !forallb_app.
  rewrite (encodes_printable h (int_repr status) Ha (int_repr_printable status)).
  rewrite (encodes_literal h (py " Login failed (") Ha eq_refl).
  rewrite (encodes_literal h (py "):") Ha eq_refl).
  cbn [forallb]. rewrite Hm, (Ha 10) by lia. reflexivity.
Qed.

(** ** The failure branch on a host *)

Section RunsOn.
Context `{FloatConv}.
Variables (h : host) (e : env) (w : world).
Hypothesis answered_username : username_given h = true.
Hypothesis answered_password : password_given h = true.
Hypothesis ascii : forall c, c < 128 -> encodes h c = true.

Lemma script_no_response :
  server e (the_request e) = None ->
  script h e w = (Raised RequestException, after_post_on h e w).
Proof.
  intros Hs. unfold script, mbind, prog_bind, input_on, getpass_on, getpass,
    requests_post.
  rewrite (encodes_literal h _ ascii) by reflexivity.
  rewrite answered_username, answered_password.
  unfold after_post_on.
  destruct (prompt_on_stdout h); cbn [stdout files posted opened write_stdout];
    fold (the_request e); rewrite Hs; [reflexivity|].
  now rewrite app_nil_r.
Qed.

Lemma script_failure r :
  server e (the_request e) = Some r ->
  status_code r <> 200%Z ->
  encodes h 0x274c = true ->
  forallb (encodes h) (failure_report r) = true ->
  script h e w =
  (Returned tt,
   write_stdout ((msg_failed (status_code r) ++ [10]) ++ failure_report r ++ [10])
     (after_post_on h e w)).
Proof.
  intros Hs Hst Hm Hrep.
  unfold script, mbind, prog_bind, input_on, getpass_on, getpass, requests_post.
  rewrite (encodes_literal h _ ascii) by reflexivity.
  rewrite answered_username, answered_password.
  fold (the_request e). rewrite Hs.
  destruct (Z.eqb_spec (status_code r) 200) as [|_]; [contradiction|].
  rewrite print_on_ok;
    [| now apply encodes_msg_failed | apply ascii; lia].
  unfold try_except, mbind, prog_bind, response_json.
  unfold failure_report in *.
  destruct (json_loads (text r)) as [v|];
    (rewrite print_on_ok; [| exact Hrep | apply ascii; lia]);
    rewrite write_stdout_app; unfold after_post_on, write_stdout;
    cbn [stdout files posted opened];
    destruct (prompt_on_stdout h); cbn [stdout files posted opened];
    rewrite ?app_nil_r; reflexivity.
Qed.

Lemma script_failure_refused r :
  server e (the_request e) = Some r ->
  status_code r <> 200%Z ->
  encodes h 0x274c = true ->
  json_loads (text r) = None ->
  forallb (encodes h) (text r) = false ->
  script h e w =
  (Raised UnicodeEncodeError,
   write_stdout (msg_failed (status_code r) ++ [10]) (after_post_on h e w)).
Proof.
  intros Hs Hst Hm Hj Hrep.
  unfold script, mbind, prog_bind, input_on, getpass_on, getpass, requests_post.
  rewrite (encodes_literal h _ ascii) by reflexivity.
  rewrite answered_username, answered_password.
  fold (the_request e). rewrite Hs.
  destruct (Z.eqb_spec (status_code r) 200) as [|_]; [contradiction|].
  rewrite print_on_ok;
    [| now apply encodes_msg_failed | apply ascii; lia].
  unfold try_except, mbind, prog_bind, response_json. rewrite Hj.
  rewrite print_on_refused by exact Hrep.
  unfold after_post_on, write_stdout; cbn [stdout files posted opened];
    destruct (prompt_on_stdout h); cbn [stdout files posted opened];
    rewrite ?app_nil_r; reflexivity.
Qed.
End RunsOn.

Lemma utf8_ascii c : c < 128 -> encodes utf8_terminal c = true.
Proof.
  intros Hc. cbn [utf8_terminal encodes]. unfold is_scalar, is_surrogate.
  apply andb_true_iff. split; [apply N.ltb_lt; lia|].
  apply negb_true_iff, andb_false_iff. left. apply N.leb_gt. lia.
Qed.

(** C4, as the code has it: for every status other than 200, in a run whose
    prompts were answered, the run does the same thing, in which the status
    only appears in the first printed line. It prints a blank line, the cross mark U+274C, the words Login
    failed with the status between brackets and a colon, and a blank line;
    then the body parsed and re-serialized with indent 2 when it is JSON,
    and the raw body otherwise. When standard output can encode that
    report, the run returns normally, opens no file and leaves the files as
    they were. When the body is not JSON and holds a character that standard
    output cannot encode, the print of the raw body in the handler raises,
    and the run ends with UnicodeEncodeError. *)
Theorem C4_failure_branch `{FloatConv} (h : host) (e : env) (w : world) (r : response) :
  username_given h = true -> password_given h = true ->
  (forall c, c < 128 -> encodes h c = true) ->
  encodes h 0x274c = true ->
  server e (the_request e) = Some r ->
  status_code r <> 200%Z ->
  (forallb (encodes h)
     match json_loads (text r) with
     | Some error_data => json_dumps 2 error_data
     | None => text r
     end = true ->
   fst (script h e w) = Returned tt
   /\ stdout (snd (script h e w)) =
      stdout w ++ (if prompt_on_stdout h then py "Enter username (email): " else [])
      ++ ([10; 0x274c] ++ py " Login failed (" ++ int_repr (status_code r)
          ++ py "):" ++ [10] ++ [10])
      ++ match json_loads (text r) with
         | Some error_data => json_dumps 2 error_data
         | None => text r
         end ++ [10]
   /\ files (snd (script h e w)) = files w
   /\ opened (snd (script h e w)) = opened w)
  /\ (json_loads (text r) = None -> forallb (encodes h) (text r) = false ->
      fst (script h e w) = Raised UnicodeEncodeError
      /\ files (snd (script h e w)) = files w
      /\ opened (snd (script h e w)) = opened w).
Proof.
  intros Hu Hp Ha Hm Hs Hst. split.
  - intros Hrep. rewrite (script_failure h e w Hu Hp Ha r Hs Hst Hm Hrep).
    cbn [fst snd stdout files opened write_stdout after_post_on].
    unfold failure_report, msg_failed. rewrite <- !app_assoc. auto.
  - intros Hj Hrep.
    now rewrite (script_failure_refused h e w Hu Hp Ha r Hs Hst Hm Hj Hrep).
Qed.

(** C4, as stated, fails: a 401 whose body is one lone surrogate is not
    JSON, a UTF-8 standard output cannot encode it, and the print in the
    handler raises. *)
Lemma C4_counterexample :
  status_code surrogate_401 <> 200%Z
  /\ fst (@script zero_conv utf8_terminal (answering (py "hunter2") surrogate_401)
            empty_world)
     = Raised UnicodeEncodeError.
Proof. split; [discriminate | reflexivity]. Qed.

Lemma C4_witness :
  let e := answering (py "hunter2") plain_401 in
  username_given utf8_terminal = true /\ password_given utf8_terminal = true
  /\ encodes utf8_terminal 0x274c = true
  /\ server e (@the_request zero_conv e) = Some plain_401
  /\ status_code plain_401 <> 200%Z
  /\ forallb (encodes utf8_terminal) (text plain_401) = true
  /\ fst (@script zero_conv utf8_terminal e empty_world) = Returned tt
  /\ stdout (snd (@script zero_conv utf8_terminal e empty_world))
     = [10; 0x274c] ++ py " Login failed (401):" ++ [10; 10] ++ py "denied" ++ [10]
  /\ opened (snd (@script zero_conv utf8_terminal e empty_world)) = [].
Proof.
  cbv zeta.
  assert (H2 : status_code plain_401 <> 200%Z) by discriminate.
  destruct (@C4_failure_branch zero_conv utf8_terminal
              (answering (py "hunter2") plain_401) empty_world plain_401
              eq_refl eq_refl utf8_ascii eq_refl eq_refl H2) as [Hok _].
  destruct (Hok eq_refl) as (Hret & Hout & _ & Hop).
  repeat split; try assumption; try reflexivity.
Defined.

(** ** The one call, and what it puts on the wire *)









(** Without an answer at the first prompt the run makes no call at all. *)
Lemma script_eof `{FloatConv} h e w :
  username_given h = false ->
  forallb (encodes h) (py "Enter username (email): ") = true ->
  fst (script h e w) = Raised EOFError /\ posted (snd (script h e w)) = posted w.
Proof.
  intros Hu Hprompt.
  unfold script, mbind, prog_bind, input_on. rewrite Hprompt, Hu.
  now destruct (prompt_on_stdout h).
Qed.





(** ** More of the script on a host *)

(** X14: when a prompt meets the end of input, the run ends there with
    EOFError: it has made no call to [requests.post], and it opens and
    changes no file. *)
Theorem X14_end_of_input `{FloatConv} (h : host) (e : env) (w : world) :
  forallb (encodes h) (py "Enter username (email): ") = true ->
  username_given h = false \/ password_given h = false ->
  fst (script h e w) = Raised EOFError
  /\ posted (snd (script h e w)) = posted w
  /\ files (snd (script h e w)) = files w
  /\ opened (snd (script h e w)) = opened w.
Proof.
  intros Hprompt Heof.
  unfold script, mbind, prog_bind, input_on, getpass_on. rewrite Hprompt.
  destruct (username_given h).
  - destruct Heof as [Hu|Hp]; [discriminate|]. rewrite Hp.
    now destruct (prompt_on_stdout h).
  - now destruct (prompt_on_stdout h).
Qed.

Lemma X14_witness :
  forallb (encodes closed_terminal) (py "Enter username (email): ") = true
  /\ username_given closed_terminal = false
  /\ fst (@script zero_conv closed_terminal (answering (py "hunter2") plain_401)
            empty_world) = Raised EOFError
  /\ posted (snd (@script zero_conv closed_terminal
                    (answering (py "hunter2") plain_401) empty_world)) = [].
Proof.
  split; [reflexivity|]. split; [reflexivity|].
  destruct (@X14_end_of_input zero_conv closed_terminal
              (answering (py "hunter2") plain_401) empty_world
              eq_refl (or_introl eq_refl)) as (Hraise & Hposted & _).
  split; assumption.
Defined.






(** X17: on a status 200, when standard output cannot encode the check mark
    U+2705 of the success line (a legacy code page, say), the first print of
    the success branch raises: the run ends with UnicodeEncodeError before
    the body is parsed, and nothing is saved, whatever the body. *)
Theorem X17_success_line_needs_encoding `{FloatConv}
    (h : host) (e : env) (w : world) (r : response) :
  username_given h = true -> password_given h = true ->
  forallb (encodes h) (py "Enter username (email): ") = true ->
  server e (the_request e) = Some r ->
  status_code r = 200%Z ->
  encodes h 0x2705 = false ->
  fst (script h e w) = Raised UnicodeEncodeError
  /\ files (snd (script h e w)) = files w
  /\ opened (snd (script h e w)) = opened w.
Proof.
  intros Hu Hp Hprompt Hs Hst Hm.
  unfold script, mbind, prog_bind, input_on, getpass_on, getpass, requests_post.
  rewrite Hprompt, Hu, Hp. fold (the_request e). rewrite Hs, Hst.
  cbn [Z.eqb Pos.eqb].
  rewrite print_on_refused.
  - now destruct (prompt_on_stdout h).
  - unfold msg_retrieved. cbn [app forallb]. rewrite Hm. apply andb_false_r.
Qed.

Lemma X17_witness :
  let h := {| username_given := true; password_given := true;
              prompt_on_stdout := true; encodes := fun c => c <? 256;
              writable := true |} in
  let e := answering (py "hunter2") compact_200 in
  encodes h 0x2705 = false
  /\ fst (@script zero_conv h e empty_world) = Raised UnicodeEncodeError
  /\ opened (snd (@script zero_conv h e empty_world)) = [].
Proof.
  cbv zeta. split; [reflexivity|].
  destruct (@X17_success_line_needs_encoding zero_conv
              {| username_given := true; password_given := true;
                 prompt_on_stdout := true; encodes := fun c => c <? 256;
                 writable := true |}
              (answering (py "hunter2") compact_200) empty_world compact_200
              eq_refl eq_refl eq_refl eq_refl eq_refl eq_refl) as (Hraise & _ & Hop).
  split; assumption.
Defined.

(** X18: [json.loads] never refuses the file the script saved: it reads it
    as the parsed object with every high surrogate that is directly followed
    by a low one joined to it into one character and its dictionaries
    rebuilt from their pairs; that is the parsed object itself when its
    strings hold no such pair. *)
Theorem X18_saved_file_reads_back `{FloatConvLaws}
    (e : env) (w : world) (r : response) :
  server e (the_request e) = Some r ->
  opened (snd (main e w)) = opened w ++ [token_file] ->
  exists token_data,
    json_loads (text r) = Some token_data
    /\ files (snd (main e w)) !! token_file = Some (json_dumps 2 token_data)
    /\ json_loads (json_dumps 2 token_data) = Some (canon token_data)
    /\ (strings_ok token_data = true -> canon token_data = token_data).
Proof.
  intros Hs Hop.
  destruct (proj1 (main_written_iff e w r Hs) Hop) as [Hst Hj].
  destruct (json_loads (text r)) as [v|] eqn:Hv; [|contradiction].
  pose proof (json_loads_readable _ _ Hv) as Hr.
  pose proof (loads_dumps_canon CONSTANTS 2 v Hr) as Hc.
  exists v. split; [reflexivity|]. split; [|split].
  - rewrite (main_success e w r v Hs Hst Hv). apply lookup_insert_eq.
  - exact Hc.
  - intros Hok. pose proof (json_loads_strings _ _ Hv Hok) as Hwf.
    pose proof (loads_dumps CONSTANTS 2 v Hwf) as Hl.
    unfold json_loads in *. congruence.
Qed.

Lemma X18_witness :
  let e := answering (py "hunter2") pair_200 in
  server e (@the_request zero_conv e) = Some pair_200
  /\ opened (snd (@main zero_conv e empty_world)) = opened empty_world ++ [token_file]
  /\ exists token_data,
       @json_loads zero_conv (text pair_200) = Some token_data
       /\ files (snd (@main zero_conv e empty_world)) !! token_file
          = Some (@json_dumps zero_conv 2 token_data)
       /\ @json_loads zero_conv (@json_dumps zero_conv 2 token_data)
          = Some (@canon zero_conv token_data)
       /\ (strings_ok token_data = true -> @canon zero_conv token_data = token_data).
Proof.
  cbv zeta. split; [reflexivity|]. split; [reflexivity|].
  exact (@X18_saved_file_reads_back zero_conv zero_conv_laws
           (answering (py "hunter2") pair_200) empty_world pair_200
           eq_refl eq_refl).
Defined.
